(** * Grid Universe: push and portal systems, editor level source

    A shallow embedding of

    - [grid_universe/systems/push.py]   ([compute_destination], [push_system]),
    - [grid_universe/systems/portal.py] ([portal_system_entity], [portal_system]),
    - [app/config/sources/editor_source.py]
      ([_pair_portals], [_build_level_from_tokens], [_make_env]),

    over an immutable [State] whose component stores are finite maps keyed by
    entity id (pyrsistent [PMap]s in the source, [gmap]s here).  Python
    integers are unbounded, hence [Z].  Code that can raise lives in the
    small error monad [exn]; code whose every operation is total ([.get],
    [.set], set intersection, [dataclasses.replace]) is a plain function. *)

From stdpp Require Import gmap strings list fin_maps fin_sets.
From Stdlib Require Import ZArith.

Local Open Scope Z_scope.

(** ** Exceptions *)

Inductive PyError : Type :=
  | ZeroDivisionError
  | IndexError
  | KeyError (k : string)
  | FactoryError
  | ValueError (msg : string).

Inductive exn (A : Type) : Type :=
  | Ret (a : A)
  | Raise (e : PyError).
Arguments Ret {A} a.
Arguments Raise {A} e.

Definition exn_bind {A B : Type} (m : exn A) (k : A → exn B) : exn B :=
  match m with
  | Ret a => k a
  | Raise e => Raise e
  end.

Notation "'try!' x ← m ; k" := (exn_bind m (λ x, k))
  (at level 100, x name, m at level 50, k at level 200, right associativity,
   format "'[v' 'try!'  x  ←  m ;  '/' k ']'").

(** ** Components *)

Abbreviation EntityID := Z (only parsing).

(** [Position] is a frozen dataclass of two ints. *)
Record Position : Type := mkPosition { pos_x : Z; pos_y : Z }.

#[global] Instance Position_eq_dec : EqDecision Position.
Proof. solve_decision. Defined.

#[global] Instance Position_countable : Countable Position.
Proof.
  refine (inj_countable' (λ p, (pos_x p, pos_y p))
                         (λ xy, mkPosition xy.1 xy.2) _).
  by intros [].
Defined.

(** Tag components carry no data; the store only records membership. *)
Inductive Agent : Type := MkAgent.
Inductive Blocking : Type := MkBlocking.
Inductive Collectible : Type := MkCollectible.
Inductive Collidable : Type := MkCollidable.
Inductive Dead : Type := MkDead.
Inductive Exit : Type := MkExit.
Inductive LethalDamage : Type := MkLethalDamage.
Inductive Pushable : Type := MkPushable.
Inductive Required : Type := MkRequired.

Record Appearance : Type := mkAppearance { appearance_name : string }.
Record Cost : Type := mkCost { cost_amount : Z }.
Record Damage : Type := mkDamage { damage_amount : Z }.
Record Health : Type := mkHealth { health_points : Z; max_health : Z }.
Record Inventory : Type := mkInventory { item_ids : gset Z }.
Record Key : Type := mkKey { key_id : string }.
Record Locked : Type := mkLocked { locked_key_id : string }.
Inductive MovingAxis : Type := HORIZONTAL | VERTICAL.
Record Moving : Type := mkMoving {
  moving_axis : MovingAxis;
  moving_direction : Z;
  moving_bounce : bool;
  moving_speed : Z
}.
Record Portal : Type := mkPortal { pair_entity : EntityID }.
Record Rewardable : Type := mkRewardable { reward_amount : Z }.
Record Status : Type := mkStatus { effect_ids : gset Z }.

(** The registries of movement and objective rules are closed sets of named
    functions; the systems only ever compare a rule by identity
    ([state.move_fn is wrap_around_move_fn]). *)
Inductive MoveFn : Type :=
  | default_move_fn
  | wrap_around_move_fn
  | registered_move_fn (name : string).

#[global] Instance MoveFn_eq_dec : EqDecision MoveFn.
Proof. solve_decision. Defined.

Inductive ObjectiveFn : Type :=
  | default_objective_fn
  | registered_objective_fn (name : string).

(** ** State snapshot *)

(** Modelled from the spec: the [State] dataclass of
    [grid_universe/state.py].  Fixed grid dimensions, the active
    movement and objective rules, one store per component exported by
    [grid_universe.components.properties], the previous positions, the
    per-cell trail index (same shape as the augmented trail that
    [portal_system_entity] receives) and the seed. *)
Record State : Type := mkState {
  width : Z;
  height : Z;
  move_fn : MoveFn;
  objective_fn : ObjectiveFn;
  agent : gmap Z Agent;
  appearance : gmap Z Appearance;
  blocking : gmap Z Blocking;
  collectible : gmap Z Collectible;
  collidable : gmap Z Collidable;
  cost : gmap Z Cost;
  damage : gmap Z Damage;
  dead : gmap Z Dead;
  exit : gmap Z Exit;
  health : gmap Z Health;
  inventory : gmap Z Inventory;
  key : gmap Z Key;
  lethal_damage : gmap Z LethalDamage;
  locked : gmap Z Locked;
  moving : gmap Z Moving;
  portal : gmap Z Portal;
  position : gmap Z Position;
  pushable : gmap Z Pushable;
  required : gmap Z Required;
  rewardable : gmap Z Rewardable;
  status : gmap Z Status;
  prev_position : gmap Z Position;
  trail : gmap Position (gset Z);
  seed : option Z
}.

(** [dataclasses.replace(state, position=p)] *)
Definition replace_position (state : State) (p : gmap Z Position) : State :=
  {| width := width state; height := height state;
     move_fn := move_fn state; objective_fn := objective_fn state;
     agent := agent state; appearance := appearance state;
     blocking := blocking state; collectible := collectible state;
     collidable := collidable state; cost := cost state;
     damage := damage state; dead := dead state; exit := exit state;
     health := health state; inventory := inventory state;
     key := key state; lethal_damage := lethal_damage state;
     locked := locked state; moving := moving state; portal := portal state;
     position := p;
     pushable := pushable state; required := required state;
     rewardable := rewardable state; status := status state;
     prev_position := prev_position state; trail := trail state;
     seed := seed state |}.

(** [dataclasses.replace(state, trail=t)] *)
Definition replace_trail (state : State) (t : gmap Position (gset Z)) : State :=
  {| width := width state; height := height state;
     move_fn := move_fn state; objective_fn := objective_fn state;
     agent := agent state; appearance := appearance state;
     blocking := blocking state; collectible := collectible state;
     collidable := collidable state; cost := cost state;
     damage := damage state; dead := dead state; exit := exit state;
     health := health state; inventory := inventory state;
     key := key state; lethal_damage := lethal_damage state;
     locked := locked state; moving := moving state; portal := portal state;
     position := position state;
     pushable := pushable state; required := required state;
     rewardable := rewardable state; status := status state;
     prev_position := prev_position state; trail := t;
     seed := seed state |}.

(** ** Grid, entity and trail utilities *)

(** Modelled from the spec: [utils.ecs.entities_at], the entities whose
    position is [pos]. *)
Definition entities_at (state : State) (pos : Position) : gset Z :=
  dom (filter (λ kv, kv.2 = pos) (position state)).

(** Modelled from the spec: [utils.ecs.entities_with_components_at], the
    entities at [pos] that are present in [component_store], as a list (the
    order is that of a set iteration and is not relied upon). *)
Definition entities_with_components_at {V : Type}
    (state : State) (pos : Position) (component_store : gmap Z V) : list Z :=
  filter (λ eid, is_Some (component_store !! eid))
         (elements (entities_at state pos)).

(** Modelled from the spec: [utils.grid.is_blocked_at], whether some entity
    at [pos] is [Blocking], or [Collidable] when [check_collidable]. *)
Definition is_blocked_at (state : State) (pos : Position)
    (check_collidable : bool) : bool :=
  existsb
    (λ other_id,
       bool_decide (is_Some (blocking state !! other_id))
       || (check_collidable
           && bool_decide (is_Some (collidable state !! other_id))))
    (elements (entities_at state pos)).

(** Modelled from the spec: [utils.grid.is_in_bounds],
    [0 <= x < width and 0 <= y < height]. *)
Definition is_in_bounds (state : State) (pos : Position) : bool :=
  bool_decide (0 ≤ pos_x pos < width state)
  && bool_decide (0 ≤ pos_y pos < height state).

(** Python's [a % b] on ints: floor modulo, [ZeroDivisionError] at [b = 0]. *)
Definition py_mod (a b : Z) : exn Z :=
  if decide (b = 0) then Raise ZeroDivisionError else Ret (a `mod` b).

(** Modelled from the spec: [utils.grid.wrap_position],
    [Position(x % width, y % height)]. *)
Definition wrap_position (x y w h : Z) : exn Position :=
  try! wx ← py_mod x w;
  try! wy ← py_mod y h;
  Ret (mkPosition wx wy).

(** Modelled from the spec: [utils.trail.add_trail_position], a new state
    whose trail records [entity_id] at [new_pos].  As every state
    transformer it returns the new snapshot and leaves its argument alone. *)
Definition add_trail_position (state : State) (entity_id : EntityID)
    (new_pos : Position) : State :=
  replace_trail state
    (<[new_pos := default ∅ (trail state !! new_pos) ∪ {[entity_id]}]>
       (trail state)).

(** Modelled from the spec: [utils.trail.get_augmented_trail], the trail
    index extended with the resting cell of each of [entity_ids]. *)
Definition get_augmented_trail (state : State) (entity_ids : gset Z)
    : gmap Position (gset Z) :=
  set_fold
    (λ eid acc,
       match position state !! eid with
       | None => acc
       | Some pos => <[pos := default ∅ (acc !! pos) ∪ {[eid]}]> acc
       end)
    (trail state) entity_ids.

(** ** Push system ([systems/push.py]) *)

Definition compute_destination (state : State)
    (current_pos next_pos : Position) : exn (option Position) :=
  let dx := pos_x next_pos - pos_x current_pos in
  let dy := pos_y next_pos - pos_y current_pos in
  let dest_x := pos_x next_pos + dx in
  let dest_y := pos_y next_pos + dy in
  if decide (move_fn state = wrap_around_move_fn) then
    try! p ← wrap_position dest_x dest_y (width state) (height state);
    Ret (Some p)
  else
    let target_position := mkPosition dest_x dest_y in
    if negb (is_in_bounds state target_position) then Ret None
    else Ret (Some target_position).

(** The body of the [for pushable_id in pushable_ids] loop: the position map
    is rebound, the state returned by [add_trail_position] is dropped. *)
Definition push_step (state : State) (push_to : Position)
    (new_position : gmap Z Position) (pushable_id : EntityID)
    : gmap Z Position :=
  let new_position := <[pushable_id := push_to]> new_position in
  let _ := add_trail_position state pushable_id push_to in
  new_position.

Definition push_system (state : State) (eid : EntityID)
    (next_pos : Position) : exn State :=
  match position state !! eid with
  | None => Ret state
  | Some current_pos =>
    let pushable_ids :=
      entities_with_components_at state next_pos (pushable state) in
    match pushable_ids with
    | [] => Ret state
    | pushable_id :: _ =>
      try! push_to ← compute_destination state current_pos next_pos;
      match push_to with
      | None => Ret state
      | Some push_to =>
        if is_blocked_at state push_to true then Ret state
        else
          let new_position := <[eid := next_pos]> (position state) in
          let new_position :=
            fold_left (push_step state push_to) pushable_ids new_position in
          Ret (replace_position state new_position)
      end
    end
  end.

(** ** Portal system ([systems/portal.py]) *)

Definition entering_entity_ids (state : State)
    (augmented_trail : gmap Position (gset Z))
    (portal_position : Position) : gset Z :=
  let entity_ids :=
    default ∅ (augmented_trail !! portal_position) ∩ dom (collidable state) in
  filter (λ eid, prev_position state !! eid ≠ position state !! eid)
         entity_ids.

Definition portal_system_entity (state : State)
    (augmented_trail : gmap Position (gset Z)) (portal_id : EntityID)
    : State :=
  match position state !! portal_id, portal state !! portal_id with
  | Some portal_position, Some prt =>
    match position state !! pair_entity prt with
    | None => state
    | Some pair_position =>
      let state_position :=
        set_fold (λ eid sp, <[eid := pair_position]> sp) (position state)
          (entering_entity_ids state augmented_trail portal_position) in
      replace_position state state_position
    end
  | _, _ => state
  end.

(** The portals are visited in the iteration order of the [portal] store,
    which is fixed but unspecified; [portal_system_over] takes the order as
    a list so that properties can be stated for every order. *)
Definition portal_system_over (portal_ids : list Z) (state : State)
    (augmented_trail : gmap Position (gset Z)) : State :=
  fold_left (λ st portal_id, portal_system_entity st augmented_trail portal_id)
            portal_ids state.

Definition portal_system (state : State) : State :=
  let augmented_trail := get_augmented_trail state (dom (collidable state)) in
  portal_system_over (map_to_list (portal state)).*1 state augmented_trail.

(** ** Level editor ([app/config/sources/editor_source.py]) *)

(** Values held by a token's [params] dict. *)
Inductive PyVal : Type :=
  | PyNone
  | PyInt (n : Z)
  | PyBool (b : bool)
  | PyStr (s : string)
  | PyAxis (a : MovingAxis).

(** A palette token [{"type": str, "params": {..}}]; [params] may be absent
    or [None]. *)
Record Token : Type := mkToken {
  tok_type : string;
  tok_params : option (gmap string PyVal)
}.

(** A call of one of the [grid_universe.levels.factories] constructors: its
    name and its arguments by keyword (by position where the source passes
    them so). *)
Record FactoryCall : Type := mkCall {
  call_factory : string;
  call_args : list (string * PyVal)
}.

(** Modelled from the spec: [EntitySpec], the component bundle returned by a
    factory, kept as the call that made it, with the authoring-time
    attribute [portal_pair_ref].  Specs are mutable objects; a reference to
    one is its index in the list of objects created so far. *)
Record EntitySpec : Type := mkEntitySpec {
  spec_made_by : FactoryCall;
  portal_pair_ref : option nat
}.

Definition set_portal_pair_ref (o : nat) (r : nat) (objs : list EntitySpec)
    : list EntitySpec :=
  alter (λ sp, mkEntitySpec (spec_made_by sp) (Some r)) o objs.

(** Modelled from the spec: the texture/appearance mapping handed to the
    renderer; opaque to the code below. *)
Definition TextureMap : Type := list (string * string).

Record EditorConfig : Type := mkEditorConfig {
  cfg_width : Z;
  cfg_height : Z;
  cfg_move_fn : MoveFn;
  cfg_objective_fn : ObjectiveFn;
  cfg_seed : option Z;
  cfg_render_texture_map : TextureMap;
  grid_tokens : list (list (list Token))
}.

(** The part of [st.session_state] that the level builder reads. *)
Record SessionState : Type := mkSessionState {
  editor_portal_pairs : option (list ((Z * Z) * (Z * Z)))
}.

(** Modelled from the spec: [levels.grid.Level], the authored layout — its
    dimensions and rules, the objects created for it and, in the order of
    [Level.add], the cell each one was placed on. *)
Record Level : Type := mkLevel {
  lvl_width : Z;
  lvl_height : Z;
  lvl_move_fn : MoveFn;
  lvl_objective_fn : ObjectiveFn;
  lvl_seed : option Z;
  lvl_objects : list EntitySpec;
  lvl_placed : list ((Z * Z) * nat)
}.

(** Modelled from the spec: [gym_env.GridUniverseEnv], as the arguments it
    is constructed with. *)
Record GridUniverseEnv : Type := mkGridUniverseEnv {
  render_mode : string;
  initial_state_fn : SessionState → exn State;
  env_width : Z;
  env_height : Z;
  env_render_texture_map : TextureMap
}.

(** *** Python containers *)

(** [range(n)] *)
Definition py_range (n : Z) : list Z := Z.of_nat <$> seq 0 (Z.to_nat n).

(** [l[i]] *)
Definition py_index {A : Type} (l : list A) (i : Z) : exn A :=
  let j := if decide (i < 0) then i + Z.of_nat (length l) else i in
  if decide (j < 0) then Raise IndexError
  else match l !! Z.to_nat j with
       | Some a => Ret a
       | None => Raise IndexError
       end.

(** [enumerate(l)] *)
Fixpoint enumerate_from {A : Type} (i : Z) (l : list A) : list (Z * A) :=
  match l with
  | [] => []
  | a :: l' => (i, a) :: enumerate_from (i + 1) l'
  end.

Definition enumerate {A : Type} (l : list A) : list (Z * A) :=
  enumerate_from 0 l.

(** [p[k]] and [p.get(k, d)] *)
Definition py_getitem (p : gmap string PyVal) (k : string) : exn PyVal :=
  match p !! k with
  | Some v => Ret v
  | None => Raise (KeyError k)
  end.

Definition py_get (p : gmap string PyVal) (k : string) (d : PyVal) : PyVal :=
  default d (p !! k).

(** A dict with its insertion order: [d[k] = v] and [d.get(k)]. *)
Fixpoint dict_set {K V : Type} `{EqDecision K} (k : K) (v : V)
    (d : list (K * V)) : list (K * V) :=
  match d with
  | [] => [(k, v)]
  | (k', v') :: d' =>
    if decide (k = k') then (k, v) :: d' else (k', v') :: dict_set k v d'
  end.

Fixpoint dict_get {K V : Type} `{EqDecision K} (k : K) (d : list (K * V))
    : option V :=
  match d with
  | [] => None
  | (k', v') :: d' => if decide (k = k') then Some v' else dict_get k d'
  end.

(** A loop whose body may raise. *)
Fixpoint exn_fold {A B : Type} (f : B → A → exn B) (l : list A) (b : B)
    : exn B :=
  match l with
  | [] => Ret b
  | a :: l' => try! b' ← f b a; exn_fold f l' b'
  end.

(** [[(l[i], l[i + 1]) for i in range(0, len(l) - 1, 2)]] *)
Fixpoint sequential_pairs {A : Type} (l : list A) : list (A * A) :=
  match l with
  | a :: b :: l' => (a, b) :: sequential_pairs l'
  | _ => []
  end.

(** *** Portal pairing in the working grid *)

Definition has_portal (cell : list Token) : bool :=
  existsb (λ t, bool_decide (tok_type t = "portal")) cell.

Definition row_portals (yy : Z) (row : list (list Token)) : list (Z * Z) :=
  omap (λ xc, if has_portal xc.2 then Some (xc.1, yy) else None)
       (enumerate row).

Definition grid_portals (grid : list (list (list Token))) : list (Z * Z) :=
  concat ((λ yr, row_portals yr.1 yr.2) <$> enumerate grid).

Definition _pair_portals (grid : list (list (list Token)))
    (st : SessionState) : SessionState :=
  let portals := grid_portals grid in
  {| editor_portal_pairs := Some (sequential_pairs portals) |}.

Section Editor.

(** Whether a constructor of [grid_universe.levels.factories] returns on
    the given arguments.  The editor only calls these constructors, so they
    are a parameter and every statement below holds for each choice. *)
Variable factory_accepts : FactoryCall → bool.

(** The conversion of an authored level into the initial [State],
    [levels.convert.to_state], which the editor only calls: likewise a
    parameter. *)
Variable to_state : Level → exn State.

Definition create (name : string) (args : list (string * PyVal))
    : exn FactoryCall :=
  let call := mkCall name args in
  if factory_accepts call then Ret call else Raise FactoryError.

(** A palette entry.  Its [param_ui], [icon] and [multi_place] fields only
    drive the widgets and are not read when a level is built. *)
Record ToolSpec : Type := mkToolSpec {
  label : string;
  builder : option (gmap string PyVal → exn FactoryCall);
  description : string
}.

Definition moving_args (p : gmap string PyVal) : list (string * PyVal) :=
  [ ("moving_axis", py_get p "moving_axis" PyNone);
    ("moving_direction", py_get p "moving_direction" PyNone);
    ("moving_bounce", py_get p "moving_bounce" (PyBool true));
    ("moving_speed", py_get p "moving_speed" (PyInt 1)) ].

Definition PALETTE : list (string * ToolSpec) :=
  [ ("floor", mkToolSpec "Floor"
       (Some (λ p, create "create_floor"
                     [("cost_amount", py_get p "cost" (PyInt 1))])) "");
    ("wall", mkToolSpec "Wall" (Some (λ p, create "create_wall" [])) "");
    ("agent", mkToolSpec "Agent"
       (Some (λ p, try! h ← py_getitem p "health";
                   create "create_agent" [("health", h)])) "");
    ("exit", mkToolSpec "Exit" (Some (λ p, create "create_exit" [])) "");
    ("coin", mkToolSpec "Coin"
       (Some (λ p, try! r ← py_getitem p "reward";
                   create "create_coin" [("reward", r)])) "");
    ("core", mkToolSpec "Core"
       (Some (λ p, create "create_core" (map_to_list p))) "");
    ("key", mkToolSpec "Key"
       (Some (λ p, try! k ← py_getitem p "key_id";
                   create "create_key" [("0", k)])) "");
    ("door", mkToolSpec "Door"
       (Some (λ p, try! k ← py_getitem p "key_id";
                   create "create_door" [("0", k)])) "");
    ("portal", mkToolSpec "Portal"
       (Some (λ p, create "create_portal" []))
       "Click two cells sequentially to pair portals.");
    ("box", mkToolSpec "Box"
       (Some (λ p, try! push ← py_getitem p "pushable";
                   create "create_box"
                     (("pushable", push) :: moving_args p))) "");
    ("monster", mkToolSpec "Monster"
       (Some (λ p, try! dmg ← py_getitem p "damage";
                   try! lethal ← py_getitem p "lethal";
                   create "create_monster"
                     (("damage", dmg) :: ("lethal", lethal)
                      :: moving_args p))) "");
    ("spike", mkToolSpec "Spike"
       (Some (λ p, try! dmg ← py_getitem p "damage";
                   try! lethal ← py_getitem p "lethal";
                   create "create_hazard"
                     [("0", PyStr "SPIKE"); ("1", dmg); ("2", lethal)])) "");
    ("lava", mkToolSpec "Lava"
       (Some (λ p, try! dmg ← py_getitem p "damage";
                   create "create_hazard"
                     [("0", PyStr "LAVA"); ("1", dmg);
                      ("2", py_get p "lethal" (PyBool true))])) "");
    ("speed", mkToolSpec "Speed"
       (Some (λ p, create "create_speed_effect" (map_to_list p))) "");
    ("shield", mkToolSpec "Shield"
       (Some (λ p, try! t ← py_getitem p "time";
                   try! u ← py_getitem p "usage";
                   create "create_immunity_effect"
                     [("time", t); ("usage", u)])) "");
    ("ghost", mkToolSpec "Ghost"
       (Some (λ p, try! t ← py_getitem p "time";
                   try! u ← py_getitem p "usage";
                   create "create_phasing_effect"
                     [("time", t); ("usage", u)])) "");
    ("erase", mkToolSpec "Eraser" None "") ].

Definition _default_tool_params (tool_key : string) : gmap string PyVal :=
  let moving : list (string * PyVal) :=
    [ ("moving_axis", PyNone); ("moving_direction", PyNone);
      ("moving_bounce", PyBool true); ("moving_speed", PyInt 1) ] in
  let limits : list (string * PyVal) :=
    [ ("time", PyNone); ("usage", PyNone) ] in
  let defaults : list (string * list (string * PyVal)) :=
    [ ("floor", [("cost", PyInt 1)]);
      ("agent", [("health", PyInt 5)]);
      ("coin", [("reward", PyNone)]);
      ("core", [("reward", PyInt 10); ("required", PyBool true)]);
      ("key", [("key_id", PyStr "A")]);
      ("door", [("key_id", PyStr "A")]);
      ("monster", ("damage", PyInt 3) :: ("lethal", PyBool false) :: moving);
      ("box", ("pushable", PyBool true) :: moving);
      ("spike", [("damage", PyInt 2); ("lethal", PyBool false)]);
      ("lava", [("damage", PyInt 2); ("lethal", PyBool true)]);
      ("speed", ("multiplier", PyInt 2) :: limits);
      ("shield", limits);
      ("ghost", limits) ] in
  list_to_map (default [] (dict_get tool_key defaults)).

(** *** Rebuilding the level from the snapshot tokens *)

(** The variables of the token loop: the objects created so far, the
    placements made by [level.add], and the [portal_specs] dict. *)
Record Build : Type := mkBuild {
  b_objects : list EntitySpec;
  b_placed : list ((Z * Z) * nat);
  b_portal_specs : list ((Z * Z) * nat)
}.

(** [builder.builder(merged)], falling back on [builder.builder(defaults)];
    [None] when both raise. *)
Definition build_spec (bld : gmap string PyVal → exn FactoryCall)
    (merged defaults : gmap string PyVal) : option FactoryCall :=
  match bld merged with
  | Ret call => Some call
  | Raise _ =>
    match bld defaults with
    | Ret call => Some call
    | Raise _ => None
    end
  end.

(** The body of [for token in tokens]. *)
Definition build_token (x y : Z) (b : Build) (token : Token) : Build :=
  let ttype := tok_type token in
  if decide (ttype = "erase") then b
  else
    match dict_get ttype PALETTE with
    | None => b
    | Some tool =>
      match builder tool with
      | None => b
      | Some bld =>
        let params := default ∅ (tok_params token) in
        let defaults := _default_tool_params ttype in
        let merged := params ∪ defaults in
        match build_spec bld merged defaults with
        | None => b
        | Some call =>
          let spec := length (b_objects b) in
          {| b_objects := b_objects b ++ [mkEntitySpec call None];
             b_placed := b_placed b ++ [((x, y), spec)];
             b_portal_specs :=
               if decide (ttype = "portal")
               then dict_set (x, y) spec (b_portal_specs b)
               else b_portal_specs b |}
        end
      end
    end.

(** The body of [for x in range(cfg.width)]. *)
Definition build_cell (cfg : EditorConfig) (y : Z) (b : Build) (x : Z)
    : exn Build :=
  try! row ← py_index (grid_tokens cfg) y;
  try! tokens ← py_index row x;
  Ret (fold_left (build_token x y) tokens b).

Definition build_row (cfg : EditorConfig) (b : Build) (y : Z) : exn Build :=
  exn_fold (build_cell cfg y) (py_range (cfg_width cfg)) b.

(** The body of [for a_pos, b_pos in pairs]. *)
Definition pair_step (portal_specs : list ((Z * Z) * nat))
    (objs : list EntitySpec) (pr : (Z * Z) * (Z * Z)) : list EntitySpec :=
  match dict_get pr.1 portal_specs, dict_get pr.2 portal_specs with
  | Some a, Some b =>
    if decide (a ≠ b) then
      let objs := set_portal_pair_ref a b objs in
      match portal_pair_ref <$> objs !! b with
      | Some (Some _) => objs
      | _ => set_portal_pair_ref b a objs
      end
    else objs
  | _, _ => objs
  end.

Definition _build_level_from_tokens (st : SessionState) (cfg : EditorConfig)
    : exn Level :=
  let b0 := {| b_objects := []; b_placed := []; b_portal_specs := [] |} in
  try! b ← exn_fold (build_row cfg) (py_range (cfg_height cfg)) b0;
  let pairs :=
    match editor_portal_pairs st with
    | Some pairs => pairs
    | None => sequential_pairs (b_portal_specs b).*1
    end in
  let objs := fold_left (pair_step (b_portal_specs b)) pairs (b_objects b) in
  Ret {| lvl_width := cfg_width cfg; lvl_height := cfg_height cfg;
         lvl_move_fn := cfg_move_fn cfg;
         lvl_objective_fn := cfg_objective_fn cfg;
         lvl_seed := cfg_seed cfg;
         lvl_objects := objs; lvl_placed := b_placed b |}.

(** *** Environment construction *)

Definition _initial_state_fn (cfg : EditorConfig) (st : SessionState)
    : exn State :=
  try! level ← _build_level_from_tokens st cfg;
  to_state level.

Definition _make_env (st : SessionState) (cfg : EditorConfig)
    : exn GridUniverseEnv :=
  try! sample_state ← _initial_state_fn cfg st;
  if decide (agent sample_state = ∅) then
    Raise (ValueError
      "Level must contain an Agent. Use the 'Agent' tool in the palette to place one before starting.")
  else
    Ret {| render_mode := "texture";
           initial_state_fn := _initial_state_fn cfg;
           env_width := width sample_state;
           env_height := height sample_state;
           env_render_texture_map := cfg_render_texture_map cfg |}.

End Editor.

(** ** Working grid ([_ensure_working_grid], [_place_tool]) *)

(** The errors that editing the working grid can raise: an index out of
    range, [next] on an exhausted generator, and subscripting the params
    of a floor token that has none. *)
Inductive GridError : Type :=
  | GridIndexError
  | StopIteration
  | FloorParamsError.

Inductive edited (A : Type) : Type :=
  | Edited (a : A)
  | EditFailed (e : GridError).
Arguments Edited {A} a.
Arguments EditFailed {A} e.

(** [l[i]] and [l[i] = v] on the working grid, with Python's negative
    indices. *)
Definition grid_index {A : Type} (l : list A) (i : Z) : edited (nat * A) :=
  let j := if decide (i < 0) then i + Z.of_nat (length l) else i in
  if decide (j < 0) then EditFailed GridIndexError
  else match l !! Z.to_nat j with
       | Some a => Edited (Z.to_nat j, a)
       | None => EditFailed GridIndexError
       end.

(** [grid[y][x] = cell], once [grid[y][x]] has been read. *)
Definition set_cell (grid : list (list (list Token))) (j i : nat)
    (cell : list Token) : list (list (list Token)) :=
  alter (λ row, <[i := cell]> row) j grid.

(** The floor token every fresh cell starts with. *)
Definition default_floor : Token :=
  mkToken "floor" (Some {[ "cost" := PyInt 1 ]}).

(** [next((t for t in cell if t["type"] == "floor"), None)], with the
    index of the token found. *)
Definition first_floor (cell : list Token) : option (nat * Token) :=
  list_find (λ t, tok_type t = "floor") cell.

(** The grid [_ensure_working_grid] creates: [height] rows of [width]
    cells, each holding its own floor token. *)
Definition fresh_grid (width height : Z) : list (list (list Token)) :=
  (λ _, (λ _, [default_floor]) <$> py_range width) <$> py_range height.

(** [_ensure_working_grid]: the stored grid if there is one, whatever the
    size asked for, else a fresh one that is stored.  Returns the grid and
    the new value of the session key. *)
Definition _ensure_working_grid (width height : Z)
    (stored : option (list (list (list Token))))
    : list (list (list Token)) * option (list (list (list Token))) :=
  match stored with
  | Some grid => (grid, Some grid)
  | None => (fresh_grid width height, Some (fresh_grid width height))
  end.

(** [_place_tool].  The token dicts of a working grid are not shared
    between cells ([_ensure_working_grid] makes one per cell and
    [_place_tool] keeps a floor token in its cell), so the in-place update
    of a floor's cost shows in the cell at hand only. *)
Definition _place_tool (tool_key : string) (x y : Z)
    (grid : list (list (list Token))) (params : option (gmap string PyVal))
    : edited (list (list (list Token))) :=
  match grid_index grid y with
  | EditFailed e => EditFailed e
  | Edited (j, row) =>
    match grid_index row x with
    | EditFailed e => EditFailed e
    | Edited (i, cell) =>
      if decide (tool_key = "erase") then
        match first_floor cell with
        | None => EditFailed StopIteration
        | Some (_, floor_entry) => Edited (set_cell grid j i [floor_entry])
        end
      else if decide (tool_key = "floor") then
        match first_floor cell with
        | None =>
          let cost :=
            match params with
            | Some p => if decide (p = ∅) then PyInt 1
                        else py_get p "cost" (PyInt 1)
            | None => PyInt 1
            end in
          Edited (set_cell grid j i
                    [mkToken "floor" (Some {[ "cost" := cost ]})])
        | Some (k, floor_entry) =>
          match params ≫= (λ p, p !! "cost") with
          | None => Edited grid
          | Some cost =>
            match tok_params floor_entry with
            | None => EditFailed FloorParamsError
            | Some fp =>
              Edited (set_cell grid j i
                        (<[k := mkToken (tok_type floor_entry)
                                   (Some (<["cost" := cost]> fp))]> cell))
            end
          end
        end
      else
        let floor_entry :=
          match first_floor cell with
          | None => default_floor
          | Some (_, floor_entry) => floor_entry
          end in
        Edited (set_cell grid j i
                  [floor_entry; mkToken tool_key (Some (default ∅ params))])
    end
  end.

(** The floor token a cell passes on when a tool is placed on it. *)
Definition kept_floor (cell : list Token) : Token :=
  match first_floor cell with
  | None => default_floor
  | Some (_, floor_entry) => floor_entry
  end.

(** A run of clicks: each one places a tool on a cell. *)
Definition place_all
    (clicks : list (string * (Z * Z) * option (gmap string PyVal)))
    (grid : list (list (list Token))) : edited (list (list (list Token))) :=
  foldl (λ acc click,
           match acc with
           | Edited g => _place_tool click.1.1 click.1.2.1 click.1.2.2 g click.2
           | EditFailed e => EditFailed e
           end)
        (Edited grid) clicks.

(** The cell of column [x] and row [y], both counted from 0. *)
Definition cell_at (grid : list (list (list Token))) (x y : Z)
    : option (list Token) :=
  grid !! Z.to_nat y ≫= (λ row, row !! Z.to_nat x).

(** The grid has [h] rows of [w] cells. *)
Definition grid_shape (w h : nat) (grid : list (list (list Token))) : Prop :=
  length grid = h ∧ Forall (λ row, length row = w) grid.

(** A cell as the editor keeps it: a floor token with params first, then at
    most one token that is not a floor. *)
Definition tidy_cell (cell : list Token) : Prop :=
  ∃ floor_entry rest,
    cell = floor_entry :: rest
    ∧ tok_type floor_entry = "floor"
    ∧ is_Some (tok_params floor_entry)
    ∧ (length rest ≤ 1)%nat
    ∧ Forall (λ t, tok_type t ≠ "floor") rest.

Definition tidy_grid (grid : list (list (list Token))) : Prop :=
  Forall (Forall tidy_cell) grid.

(** ** Specification predicates *)

(** What "blocked" means: some entity stands on the cell and is [Blocking],
    or [Collidable] when collidables are checked. *)
Definition blocker_at (s : State) (pos : Position) (check_collidable : bool)
    : Prop :=
  ∃ e, position s !! e = Some pos
       ∧ (is_Some (blocking s !! e)
          ∨ (check_collidable = true ∧ is_Some (collidable s !! e))).

(** Every field but [position] agrees. *)
Definition same_except_position (s s' : State) : Prop :=
  width s' = width s ∧ height s' = height s
  ∧ move_fn s' = move_fn s ∧ objective_fn s' = objective_fn s
  ∧ agent s' = agent s ∧ appearance s' = appearance s
  ∧ blocking s' = blocking s ∧ collectible s' = collectible s
  ∧ collidable s' = collidable s ∧ cost s' = cost s
  ∧ damage s' = damage s ∧ dead s' = dead s ∧ exit s' = exit s
  ∧ health s' = health s ∧ inventory s' = inventory s
  ∧ key s' = key s ∧ lethal_damage s' = lethal_damage s
  ∧ locked s' = locked s ∧ moving s' = moving s ∧ portal s' = portal s
  ∧ pushable s' = pushable s ∧ required s' = required s
  ∧ rewardable s' = rewardable s ∧ status s' = status s
  ∧ prev_position s' = prev_position s ∧ trail s' = trail s
  ∧ seed s' = seed s.

(** The cells named by a list of pairs, in order. *)
Definition pair_cells {A : Type} (pairs : list (A * A)) : list A :=
  concat ((λ pr, [pr.1; pr.2]) <$> pairs).

(** The pair reference of object [o], if it is an object with one. *)
Definition ref_of (objs : list EntitySpec) (o : nat) : option nat :=
  objs !! o ≫= portal_pair_ref.

(** Pairing is symmetric: whenever [a] refers to [b], [b] refers to [a]. *)
Definition refs_symmetric (objs : list EntitySpec) : Prop :=
  ∀ a b, ref_of objs a = Some b → ref_of objs b = Some a.

(** The snapshot has a cell for every [(x, y)] the loops visit. *)
Definition well_shaped (cfg : EditorConfig) : Prop :=
  ∀ y x, 0 ≤ y < cfg_height cfg → 0 ≤ x < cfg_width cfg →
    ∃ row tokens, grid_tokens cfg !! Z.to_nat y = Some row
                  ∧ row !! Z.to_nat x = Some tokens.

(** The stored portal pairs, if any, were written by [_pair_portals], the
    only writer of that key. *)
Definition authored_session (st : SessionState) : Prop :=
  editor_portal_pairs st = None
  ∨ ∃ grid st0, st = _pair_portals grid st0.

(** What holds of the loop variables after every token: no object has a
    pair yet, [portal_specs] maps distinct cells to distinct objects that
    exist. *)
Definition build_inv (b : Build) : Prop :=
  Forall (λ sp, portal_pair_ref sp = None) (b_objects b)
  ∧ (∀ o, o ∈ (b_portal_specs b).*2 → (o < length (b_objects b))%nat)
  ∧ NoDup (b_portal_specs b).*1
  ∧ NoDup (b_portal_specs b).*2.

(** Modelled from the spec: a stand-in for [levels.convert.to_state] used
    to run [_make_env] on concrete levels.  Entity ids are creation
    indices; the grid, the rules and the seed are copied; [position] has
    every placed object, [agent] those made by [create_agent], [portal]
    those made by [create_portal] with the id of their pair ([-1], which
    no entity bears, when unpaired).  The other stores are left empty. *)
Definition convert_level (lvl : Level) : exn State :=
  let made_by (name : string) (o : nat) : bool :=
    bool_decide ((call_factory ∘ spec_made_by) <$> lvl_objects lvl !! o
                 = Some name) in
  let pair_of (o : nat) : Z :=
    match ref_of (lvl_objects lvl) o with
    | Some r => Z.of_nat r
    | None => -1
    end in
  Ret {| width := lvl_width lvl; height := lvl_height lvl;
         move_fn := lvl_move_fn lvl; objective_fn := lvl_objective_fn lvl;
         agent :=
           list_to_map
             (omap (λ po, if made_by "create_agent" po.2
                          then Some (Z.of_nat po.2, MkAgent) else None)
                   (lvl_placed lvl));
         appearance := ∅; blocking := ∅; collectible := ∅; collidable := ∅;
         cost := ∅; damage := ∅; dead := ∅; exit := ∅; health := ∅;
         inventory := ∅; key := ∅; lethal_damage := ∅; locked := ∅;
         moving := ∅;
         portal :=
           list_to_map
             (omap (λ po, if made_by "create_portal" po.2
                          then Some (Z.of_nat po.2, mkPortal (pair_of po.2))
                          else None)
                   (lvl_placed lvl));
         position :=
           list_to_map
             ((λ po, (Z.of_nat po.2, mkPosition po.1.1 po.1.2))
              <$> lvl_placed lvl);
         pushable := ∅; required := ∅; rewardable := ∅; status := ∅;
         prev_position := ∅; trail := ∅; seed := lvl_seed lvl |}.

(** Every entity that has a position stands inside the grid. *)
Definition all_in_bounds (s : State) : Prop :=
  ∀ e p, position s !! e = Some p → is_in_bounds s p = true.

(** Object [o] is a spec returned by [create_portal]. *)
Definition made_by_portal (objs : list EntitySpec) (o : nat) : Prop :=
  (call_factory ∘ spec_made_by) <$> objs !! o = Some "create_portal".

(** Every placement names the object created for it, in creation order, on
    a cell of the [w]×[h] grid. *)
Definition placements_ok (w h : Z) (objs : list EntitySpec)
    (placed : list ((Z * Z) * nat)) : Prop :=
  placed.*2 = seq 0 (length objs)
  ∧ Forall (λ po, 0 ≤ po.1.1 < w ∧ 0 ≤ po.1.2 < h) placed.

(** The agent builder under a factory that refuses everything: the
    fallback inputs reach the factory, whose refusal is the only error. *)
Definition agent_builder_refused (p : gmap string PyVal) : exn FactoryCall :=
  try! h ← py_getitem p "health";
  create (λ _, false) "create_agent" [("health", h)].

(** What the pairing loop keeps, for any list of pairs: the portal specs
    stay portal specs, and a reference only ever links two different
    objects of [portal_specs]. *)
Definition pairing_inv (ps : list ((Z * Z) * nat)) (objs : list EntitySpec)
    : Prop :=
  (∀ o, o ∈ ps.*2 → made_by_portal objs o)
  ∧ (∀ a b, ref_of objs a = Some b → a ≠ b ∧ a ∈ ps.*2 ∧ b ∈ ps.*2).

(** While the tokens are read: every object of [portal_specs] is a portal
    spec, and nothing is paired yet. *)
Definition portal_specs_inv (b : Build) : Prop :=
  Forall (λ sp, portal_pair_ref sp = None) (b_objects b)
  ∧ ∀ o, o ∈ (b_portal_specs b).*2 → made_by_portal (b_objects b) o.

(** ** Concrete worlds used by the examples *)

(** A world given by its stores that matter to push and portal. *)
Definition world (w h : Z) (mf : MoveFn)
    (pos prev : gmap Z Position) (ag : gmap Z Agent)
    (col : gmap Z Collidable) (blk : gmap Z Blocking)
    (psh : gmap Z Pushable) (prt : gmap Z Portal) : State :=
  {| width := w; height := h; move_fn := mf;
     objective_fn := default_objective_fn;
     agent := ag; appearance := ∅; blocking := blk; collectible := ∅;
     collidable := col; cost := ∅; damage := ∅; dead := ∅; exit := ∅;
     health := ∅; inventory := ∅; key := ∅; lethal_damage := ∅;
     locked := ∅; moving := ∅; portal := prt; position := pos;
     pushable := psh; required := ∅; rewardable := ∅; status := ∅;
     prev_position := prev; trail := ∅; seed := None |}.

(** The 3×1 bounded grid of the push scenario: agent 0 at (0,0), box 1 at
    (1,0), cell (2,0) empty. *)
Definition box_world : State :=
  world 3 1 default_move_fn
    {[ 0 := mkPosition 0 0; 1 := mkPosition 1 0 ]} ∅
    {[ 0 := MkAgent ]}
    {[ 0 := MkCollidable; 1 := MkCollidable ]} ∅
    {[ 1 := MkPushable ]} ∅.

(** The same grid with a wall (entity 2, [Blocking]) at (2,0). *)
Definition wall_world : State :=
  world 3 1 default_move_fn
    {[ 0 := mkPosition 0 0; 1 := mkPosition 1 0; 2 := mkPosition 2 0 ]} ∅
    {[ 0 := MkAgent ]}
    {[ 0 := MkCollidable; 1 := MkCollidable ]} {[ 2 := MkBlocking ]}
    {[ 1 := MkPushable ]} ∅.

(** A 4×1 bounded grid with a chain of two boxes: agent 0 at (0,0), box 1
    at (1,0), box 2 at (2,0), cell (3,0) empty. *)
Definition chain_world : State :=
  world 4 1 default_move_fn
    {[ 0 := mkPosition 0 0; 1 := mkPosition 1 0; 2 := mkPosition 2 0 ]} ∅
    {[ 0 := MkAgent ]}
    {[ 0 := MkCollidable; 1 := MkCollidable; 2 := MkCollidable ]} ∅
    {[ 1 := MkPushable; 2 := MkPushable ]} ∅.

(** The chain again, with boxes that are pushable but not collidable. *)
Definition ghost_chain_world : State :=
  world 4 1 default_move_fn
    {[ 0 := mkPosition 0 0; 1 := mkPosition 1 0; 2 := mkPosition 2 0 ]} ∅
    {[ 0 := MkAgent ]}
    {[ 0 := MkCollidable ]} ∅
    {[ 1 := MkPushable; 2 := MkPushable ]} ∅.

(** A 3×1 wrapping grid: agent 0 at (1,0), box 1 at (2,0); the cell beyond
    the box wraps to (0,0). *)
Definition wrap_world : State :=
  world 3 1 wrap_around_move_fn
    {[ 0 := mkPosition 1 0; 1 := mkPosition 2 0 ]} ∅
    {[ 0 := MkAgent ]}
    {[ 0 := MkCollidable; 1 := MkCollidable ]} ∅
    {[ 1 := MkPushable ]} ∅.

(** A 5×5 grid with portal 10 at (0,0) paired with portal 11 at (4,4).
    Agent 0 stands on (0,0) and came from (1,0) this step; entity 1 rests
    on (0,0) since before the step; wall 2 ([Blocking]) stands on (4,4). *)
Definition portal_world : State :=
  world 5 5 default_move_fn
    {[ 0 := mkPosition 0 0; 1 := mkPosition 0 0; 2 := mkPosition 4 4;
       10 := mkPosition 0 0; 11 := mkPosition 4 4 ]}
    {[ 0 := mkPosition 1 0; 1 := mkPosition 0 0; 2 := mkPosition 4 4;
       10 := mkPosition 0 0; 11 := mkPosition 4 4 ]}
    {[ 0 := MkAgent ]}
    {[ 0 := MkCollidable; 1 := MkCollidable ]} {[ 2 := MkBlocking ]}
    ∅ {[ 10 := mkPortal 11; 11 := mkPortal 10 ]}.

(** Portal 10 at (0,0) whose pair, entity 11, has no position. *)
Definition dangling_world : State :=
  world 5 5 default_move_fn
    {[ 0 := mkPosition 0 0; 10 := mkPosition 0 0 ]}
    {[ 0 := mkPosition 1 0; 10 := mkPosition 0 0 ]}
    {[ 0 := MkAgent ]}
    {[ 0 := MkCollidable ]} ∅
    ∅ {[ 10 := mkPortal 11 ]}.

(** The portal world at rest: as [portal_world], but nobody moved this
    step. *)
Definition resting_world : State :=
  world 5 5 default_move_fn
    {[ 0 := mkPosition 0 0; 1 := mkPosition 0 0; 2 := mkPosition 4 4;
       10 := mkPosition 0 0; 11 := mkPosition 4 4 ]}
    {[ 0 := mkPosition 0 0; 1 := mkPosition 0 0; 2 := mkPosition 4 4;
       10 := mkPosition 0 0; 11 := mkPosition 4 4 ]}
    {[ 0 := MkAgent ]}
    {[ 0 := MkCollidable; 1 := MkCollidable ]} {[ 2 := MkBlocking ]}
    ∅ {[ 10 := mkPortal 11; 11 := mkPortal 10 ]}.

(** A 5×1 grid where a push ends on a portal: agent 0 at (0,0), box 1 at
    (1,0), portal 10 at (2,0) paired with portal 11 at (4,0); nobody has
    moved yet this step. *)
Definition push_portal_world : State :=
  world 5 1 default_move_fn
    {[ 0 := mkPosition 0 0; 1 := mkPosition 1 0;
       10 := mkPosition 2 0; 11 := mkPosition 4 0 ]}
    {[ 0 := mkPosition 0 0; 1 := mkPosition 1 0;
       10 := mkPosition 2 0; 11 := mkPosition 4 0 ]}
    {[ 0 := MkAgent ]}
    {[ 0 := MkCollidable; 1 := MkCollidable ]} ∅
    {[ 1 := MkPushable ]} {[ 10 := mkPortal 11; 11 := mkPortal 10 ]}.

(** Editor snapshots: a 3×1 level with portals on (0,0) and (2,0) and an
    agent on (1,0), and a 2×1 level with a wall and no agent. *)
Definition floor_token : Token :=
  mkToken "floor" (Some {[ "cost" := PyInt 1 ]}).

Definition portal_cfg : EditorConfig :=
  {| cfg_width := 3; cfg_height := 1;
     cfg_move_fn := default_move_fn;
     cfg_objective_fn := default_objective_fn;
     cfg_seed := Some 0; cfg_render_texture_map := [];
     grid_tokens :=
       [ [ [floor_token; mkToken "portal" (Some ∅)];
           [floor_token; mkToken "agent" (Some {[ "health" := PyInt 5 ]})];
           [floor_token; mkToken "portal" (Some ∅)] ] ] |}.

Definition no_agent_cfg : EditorConfig :=
  {| cfg_width := 2; cfg_height := 1;
     cfg_move_fn := default_move_fn;
     cfg_objective_fn := default_objective_fn;
     cfg_seed := Some 0; cfg_render_texture_map := [];
     grid_tokens :=
       [ [ [floor_token]; [floor_token; mkToken "wall" None] ] ] |}.

(** * Properties *)

(** ** Utilities *)

Lemma elem_of_entities_at (s : State) (pos : Position) (e : Z) :
  e ∈ entities_at s pos ↔ position s !! e = Some pos.
Proof.
  unfold entities_at. rewrite elem_of_dom. split.
  - intros [p Hp]. apply map_lookup_filter_Some in Hp as [Hp Heq].
    simpl in Heq. by subst.
  - intros Hp. exists pos. by apply map_lookup_filter_Some.
Qed.

Lemma elem_of_entities_with_components_at {V : Type}
    (s : State) (pos : Position) (store : gmap Z V) (e : Z) :
  e ∈ entities_with_components_at s pos store
  ↔ position s !! e = Some pos ∧ is_Some (store !! e).
Proof.
  unfold entities_with_components_at.
  rewrite list_elem_of_filter, elem_of_elements, elem_of_entities_at.
  tauto.
Qed.

Lemma is_blocked_at_true (s : State) (pos : Position) (c : bool) :
  is_blocked_at s pos c = true ↔ blocker_at s pos c.
Proof.
  unfold is_blocked_at, blocker_at. rewrite existsb_exists. split.
  - intros (e & Hin & Hb). exists e. split.
    + apply elem_of_entities_at, elem_of_elements. by apply list_elem_of_In.
    + apply orb_true_iff in Hb as [Hb | Hb].
      * left. by apply bool_decide_eq_true in Hb.
      * apply andb_true_iff in Hb as [-> Hb]. right.
        split; [done | by apply bool_decide_eq_true in Hb].
  - intros (e & Hpos & Hb). exists e. split.
    + apply list_elem_of_In, elem_of_elements. by apply elem_of_entities_at.
    + apply orb_true_iff. destruct Hb as [Hb | [-> Hb]].
      * left. by apply bool_decide_eq_true.
      * right. simpl. by apply bool_decide_eq_true.
Qed.

Lemma is_blocked_at_false (s : State) (pos : Position) (c : bool) :
  is_blocked_at s pos c = false ↔ ¬ blocker_at s pos c.
Proof.
  rewrite <- is_blocked_at_true. destruct (is_blocked_at s pos c); naive_solver.
Qed.

(** ** The push loop *)

Lemma push_loop_lookup (s : State) (push_to : Position) (ids : list Z)
    (m : gmap Z Position) (e : Z) :
  fold_left (push_step s push_to) ids m !! e
  = if decide (e ∈ ids) then Some push_to else m !! e.
Proof.
  revert m. induction ids as [| i ids IH]; intros m.
  - reflexivity.
  - change (fold_left (push_step s push_to) (i :: ids) m)
      with (fold_left (push_step s push_to) ids (<[i := push_to]> m)).
    rewrite IH. destruct (decide (e ∈ ids)) as [Hin | Hnin].
    + rewrite decide_True; [done | by apply list_elem_of_further].
    + destruct (decide (e = i)) as [-> | Hne].
      * rewrite lookup_insert_eq.
        rewrite decide_True; [done | by apply list_elem_of_here].
      * rewrite lookup_insert_ne by done.
        rewrite decide_False; [done |].
        intros [? | ?]%elem_of_cons; contradiction.
Qed.

Lemma push_system_unfold (s : State) (eid : Z) (cur next_pos dest : Position) :
  position s !! eid = Some cur →
  entities_with_components_at s next_pos (pushable s) ≠ [] →
  compute_destination s cur next_pos = Ret (Some dest) →
  push_system s eid next_pos
  = if is_blocked_at s dest true then Ret s
    else Ret (replace_position s
                (fold_left (push_step s dest)
                   (entities_with_components_at s next_pos (pushable s))
                   (<[eid := next_pos]> (position s)))).
Proof.
  intros Hcur Hne Hdest. unfold push_system. rewrite Hcur.
  destruct (entities_with_components_at s next_pos (pushable s)) as [| i ids];
    [done |].
  rewrite Hdest. reflexivity.
Qed.

Lemma pushables_nonempty (s : State) (next_pos : Position) (p : Z) :
  position s !! p = Some next_pos → is_Some (pushable s !! p) →
  entities_with_components_at s next_pos (pushable s) ≠ [].
Proof.
  intros Hp Hpush Hnil.
  assert (p ∈ entities_with_components_at s next_pos (pushable s)) as Hin
    by by apply elem_of_entities_with_components_at.
  rewrite Hnil in Hin. by apply elem_of_nil in Hin.
Qed.

(** ** Frame *)

Lemma same_except_position_refl (s : State) : same_except_position s s.
Proof. repeat split. Qed.

Lemma same_except_position_replace (s : State) (p : gmap Z Position) :
  same_except_position s (replace_position s p).
Proof. repeat split. Qed.

Lemma same_except_position_trans (s1 s2 s3 : State) :
  same_except_position s1 s2 → same_except_position s2 s3 →
  same_except_position s1 s3.
Proof.
  unfold same_except_position. intros H12 H23.
  repeat match goal with H : _ ∧ _ |- _ => destruct H as [? H] end.
  repeat split; congruence.
Qed.

Lemma compute_destination_raises (s : State) (cur nxt : Position) (e : PyError) :
  compute_destination s cur nxt = Raise e →
  e = ZeroDivisionError ∧ move_fn s = wrap_around_move_fn
  ∧ (width s = 0 ∨ height s = 0).
Proof.
  unfold compute_destination, wrap_position, py_mod.
  destruct (decide (move_fn s = wrap_around_move_fn)) as [Hw | Hw].
  - destruct (decide (width s = 0)); simpl.
    + intros [= <-]. auto.
    + destruct (decide (height s = 0)); simpl; [| done].
      intros [= <-]. auto.
  - by destruct (negb _).
Qed.

Lemma push_system_frame (s : State) (eid : Z) (next_pos : Position) :
  match push_system s eid next_pos with
  | Ret s' => same_except_position s s'
  | Raise e => e = ZeroDivisionError ∧ move_fn s = wrap_around_move_fn
               ∧ (width s = 0 ∨ height s = 0)
  end.
Proof.
  unfold push_system.
  destruct (position s !! eid) as [cur |];
    [| apply same_except_position_refl].
  destruct (entities_with_components_at s next_pos (pushable s));
    [apply same_except_position_refl |].
  destruct (compute_destination s cur next_pos) as [[dest |] | e] eqn:Hd; simpl.
  - destruct (is_blocked_at s dest true);
      [apply same_except_position_refl | apply same_except_position_replace].
  - apply same_except_position_refl.
  - by apply compute_destination_raises in Hd.
Qed.

(** ** The teleport loop *)

Lemma teleport_loop_lookup (dest : Position) (ids : gset Z)
    (m : gmap Z Position) (e : Z) :
  set_fold (λ eid sp, <[eid := dest]> sp) m ids !! e
  = if decide (e ∈ ids) then Some dest else m !! e.
Proof.
  unfold set_fold; simpl.
  assert (∀ l : list Z,
    foldr (λ eid sp, <[eid := dest]> sp) m l !! e
    = if decide (e ∈ l) then Some dest else m !! e) as Hlist.
  { induction l as [| i l IH]; simpl.
    - done.
    - destruct (decide (e = i)) as [-> | Hne].
      + rewrite lookup_insert_eq.
        by rewrite decide_True by apply list_elem_of_here.
      + rewrite lookup_insert_ne by done. rewrite IH.
        destruct (decide (e ∈ l)) as [Hin | Hnin].
        * by rewrite decide_True by by apply list_elem_of_further.
        * rewrite decide_False; [done |].
          intros [? | ?]%elem_of_cons; contradiction. }
  rewrite Hlist.
  destruct (decide (e ∈ ids)) as [Hin | Hnin].
  - by rewrite decide_True by by apply elem_of_elements.
  - rewrite decide_False; [done |]. by rewrite elem_of_elements.
Qed.

Lemma elem_of_entering_entity_ids (s : State)
    (aug : gmap Position (gset Z)) (portal_position : Position) (e : Z) :
  e ∈ entering_entity_ids s aug portal_position
  ↔ e ∈ default ∅ (aug !! portal_position)
    ∧ is_Some (collidable s !! e)
    ∧ prev_position s !! e ≠ position s !! e.
Proof.
  unfold entering_entity_ids.
  rewrite elem_of_filter, elem_of_intersection, elem_of_dom. tauto.
Qed.

Lemma portal_system_entity_lookup (s : State)
    (aug : gmap Position (gset Z)) (portal_id : Z)
    (portal_position pair_position : Position) (prt : Portal) (e : Z) :
  position s !! portal_id = Some portal_position →
  portal s !! portal_id = Some prt →
  position s !! pair_entity prt = Some pair_position →
  position (portal_system_entity s aug portal_id) !! e
  = if decide (e ∈ entering_entity_ids s aug portal_position)
    then Some pair_position else position s !! e.
Proof.
  intros Hpos Hprt Hpair. unfold portal_system_entity.
  rewrite Hpos, Hprt, Hpair. simpl. apply teleport_loop_lookup.
Qed.

Lemma portal_system_entity_frame (s : State)
    (aug : gmap Position (gset Z)) (portal_id : Z) :
  same_except_position s (portal_system_entity s aug portal_id).
Proof.
  unfold portal_system_entity.
  destruct (position s !! portal_id), (portal s !! portal_id) as [prt |];
    try apply same_except_position_refl.
  destruct (position s !! pair_entity prt);
    [apply same_except_position_replace | apply same_except_position_refl].
Qed.

Lemma portal_system_over_frame (ids : list Z) (s : State)
    (aug : gmap Position (gset Z)) :
  same_except_position s (portal_system_over ids s aug).
Proof.
  revert s. induction ids as [| i ids IH]; intros s; simpl.
  - apply same_except_position_refl.
  - eapply same_except_position_trans;
      [apply (portal_system_entity_frame s aug i) | apply IH].
Qed.

(** ** Push system: claims *)

(** C1 — Push atomicity.  The pusher [eid] stands on [cur]; the target cell
    [next_pos] is another cell and holds a pushable.  When a destination
    [push_to] is computed: if some [Blocking] or [Collidable] entity stands
    on it, [push_system] returns the input state itself; otherwise it
    returns a state in which every pushable of the target cell is on
    [push_to], the pusher is on [next_pos], and every other entity is where
    it was.  When no destination is computed the input state is returned,
    or the error of the computation raised.  All move or none does. *)
Theorem push_atomicity (s : State) (eid : Z) (cur next_pos : Position) :
  position s !! eid = Some cur →
  cur ≠ next_pos →
  (∃ p, position s !! p = Some next_pos ∧ is_Some (pushable s !! p)) →
  match compute_destination s cur next_pos with
  | Ret (Some push_to) =>
    (blocker_at s push_to true → push_system s eid next_pos = Ret s)
    ∧ (¬ blocker_at s push_to true →
       ∃ s', push_system s eid next_pos = Ret s'
         ∧ (∀ p, position s !! p = Some next_pos →
                 is_Some (pushable s !! p) →
                 position s' !! p = Some push_to)
         ∧ position s' !! eid = Some next_pos
         ∧ (∀ e, e ≠ eid →
                 ¬ (position s !! e = Some next_pos
                    ∧ is_Some (pushable s !! e)) →
                 position s' !! e = position s !! e))
  | Ret None => push_system s eid next_pos = Ret s
  | Raise err => push_system s eid next_pos = Raise err
  end.
Proof.
  intros Hcur Hadj (p0 & Hp0 & Hpush0).
  pose proof (pushables_nonempty s next_pos p0 Hp0 Hpush0) as Hne.
  destruct (compute_destination s cur next_pos) as [[push_to |] | err] eqn:Hdest.
  - pose proof (push_system_unfold s eid cur next_pos push_to Hcur Hne Hdest)
      as Hrun.
    split.
    + intros Hb. apply is_blocked_at_true in Hb. by rewrite Hrun, Hb.
    + intros Hnb. apply is_blocked_at_false in Hnb. rewrite Hrun, Hnb.
      eexists. split; [reflexivity |]. simpl. repeat split.
      * intros p Hp Hpush. rewrite push_loop_lookup.
        rewrite decide_True; [done |].
        by apply elem_of_entities_with_components_at.
      * rewrite push_loop_lookup. rewrite decide_False.
        -- apply lookup_insert_eq.
        -- intros [Hin _]%elem_of_entities_with_components_at. congruence.
      * intros e Hnee Hnot. rewrite push_loop_lookup. rewrite decide_False.
        -- by apply lookup_insert_ne.
        -- by intros Hin%elem_of_entities_with_components_at.
  - unfold push_system. rewrite Hcur.
    destruct (entities_with_components_at s next_pos (pushable s)); [done |].
    by rewrite Hdest.
  - unfold push_system. rewrite Hcur.
    destruct (entities_with_components_at s next_pos (pushable s)); [done |].
    by rewrite Hdest.
Qed.

Lemma box_world_destination :
  compute_destination box_world (mkPosition 0 0) (mkPosition 1 0)
  = Ret (Some (mkPosition 2 0)).
Proof. reflexivity. Qed.

Lemma wall_world_destination :
  compute_destination wall_world (mkPosition 0 0) (mkPosition 1 0)
  = Ret (Some (mkPosition 2 0)).
Proof. reflexivity. Qed.

Lemma push_atomicity_witness :
  (∃ s', push_system box_world 0 (mkPosition 1 0) = Ret s'
     ∧ position s' !! 0 = Some (mkPosition 1 0)
     ∧ position s' !! 1 = Some (mkPosition 2 0))
  ∧ push_system wall_world 0 (mkPosition 1 0) = Ret wall_world.
Proof.
  split.
  - pose proof (push_atomicity box_world 0 (mkPosition 0 0) (mkPosition 1 0))
      as Hpush.
    rewrite box_world_destination in Hpush.
    destruct Hpush as [_ Hmove].
    + vm_compute; reflexivity.
    + discriminate.
    + exists 1. split; [vm_compute; reflexivity | by exists MkPushable].
    + destruct Hmove as (s' & Hrun & Hbox & Hagent & _).
      * intros Hb. apply is_blocked_at_true in Hb. vm_compute in Hb.
        discriminate.
      * exists s'. split; [done |]. split; [done |].
        apply Hbox; [vm_compute; reflexivity | by exists MkPushable].
  - pose proof (push_atomicity wall_world 0 (mkPosition 0 0) (mkPosition 1 0))
      as Hpush.
    rewrite wall_world_destination in Hpush.
    destruct Hpush as [Hblocked _].
    + vm_compute; reflexivity.
    + discriminate.
    + exists 1. split; [vm_compute; reflexivity | by exists MkPushable].
    + apply Hblocked. exists 2. split; [vm_compute; reflexivity |].
      left. by exists MkBlocking.
Defined.

(** C3, as stated, fails on a chain of two boxes: agent 0 pushes box 1 at
    (1,0); the cell beyond it, (2,0), holds the pushable box 2 and the cell
    beyond that, (3,0), is free and in bounds.  The push is refused and
    nothing moves, so it is not the case that the agent is on (1,0), box 1
    on (2,0) and box 2 on (3,0). *)
Lemma chained_push_counterexample :
  position chain_world !! 0 = Some (mkPosition 0 0)
  ∧ position chain_world !! 1 = Some (mkPosition 1 0)
  ∧ is_Some (pushable chain_world !! 1)
  ∧ position chain_world !! 2 = Some (mkPosition 2 0)
  ∧ is_Some (pushable chain_world !! 2)
  ∧ is_in_bounds chain_world (mkPosition 3 0) = true
  ∧ is_blocked_at chain_world (mkPosition 3 0) true = false
  ∧ ¬ (∃ s', push_system chain_world 0 (mkPosition 1 0) = Ret s'
         ∧ position s' !! 0 = Some (mkPosition 1 0)
         ∧ position s' !! 1 = Some (mkPosition 2 0)
         ∧ position s' !! 2 = Some (mkPosition 3 0)).
Proof.
  repeat split; try (vm_compute; reflexivity); try by eexists.
  intros (s' & Hrun & Hagent & _).
  assert (push_system chain_world 0 (mkPosition 1 0) = Ret chain_world) as Hsame
    by (vm_compute; reflexivity).
  rewrite Hsame in Hrun. injection Hrun as <-.
  vm_compute in Hagent. discriminate.
Qed.

(** Without collision the chain is not displaced either: the first box is
    stacked onto the second, which stays where it was. *)
Example chained_push_stacks :
  ∃ s', push_system ghost_chain_world 0 (mkPosition 1 0) = Ret s'
    ∧ position s' !! 0 = Some (mkPosition 1 0)
    ∧ position s' !! 1 = Some (mkPosition 2 0)
    ∧ position s' !! 2 = Some (mkPosition 2 0).
Proof. eexists. split; [vm_compute; reflexivity |]. by vm_compute. Qed.

(** C3 (amended) — No chained displacement.  When the destination cell of a
    push holds a pushable entity [q] other than the pusher, [push_system]
    still returns a state, [q] is on the destination cell afterwards as it
    was before, and if [q] is [Collidable] or [Blocking] the state returned
    is the input state: the pusher and the pushed stack stay too. *)
Theorem push_no_chain (s : State) (eid q : Z) (cur next_pos dest : Position) :
  position s !! eid = Some cur →
  compute_destination s cur next_pos = Ret (Some dest) →
  position s !! q = Some dest →
  is_Some (pushable s !! q) →
  q ≠ eid →
  ∃ s', push_system s eid next_pos = Ret s'
    ∧ position s' !! q = Some dest
    ∧ (is_Some (collidable s !! q) ∨ is_Some (blocking s !! q) → s' = s).
Proof.
  intros Hcur Hdest Hq Hpush Hne.
  destruct (entities_with_components_at s next_pos (pushable s))
    as [| i ids] eqn:Hids.
  { exists s. unfold push_system. by rewrite Hcur, Hids. }
  assert (entities_with_components_at s next_pos (pushable s) ≠ []) as Hnil
    by by rewrite Hids.
  rewrite (push_system_unfold s eid cur next_pos dest Hcur Hnil Hdest).
  destruct (is_blocked_at s dest true) eqn:Hb.
  - by exists s.
  - eexists. split; [reflexivity |]. simpl. split.
    + rewrite push_loop_lookup. case_decide; [done |].
      by rewrite lookup_insert_ne.
    + intros Hcb. apply is_blocked_at_false in Hb. exfalso. apply Hb.
      exists q. split; [done |]. tauto.
Qed.

Lemma push_no_chain_witness :
  ∃ s', push_system chain_world 0 (mkPosition 1 0) = Ret s'
    ∧ position s' !! 2 = Some (mkPosition 2 0)
    ∧ (is_Some (collidable chain_world !! 2)
       ∨ is_Some (blocking chain_world !! 2) → s' = chain_world).
Proof.
  apply (push_no_chain chain_world 0 2 (mkPosition 0 0)).
  - vm_compute; reflexivity.
  - vm_compute; reflexivity.
  - vm_compute; reflexivity.
  - by exists MkPushable.
  - discriminate.
Defined.

(** C4 — Push destination.  With [dest] the cell one step beyond [next_pos]
    in the direction from [current_pos]:
    under the wrap rule the result is [dest] with each coordinate taken
    modulo the width, resp. the height (Python's [%], which raises
    [ZeroDivisionError] for a zero width or height);
    under any other rule the result is [dest] when it is in bounds and
    [None] otherwise, and on [None] a push from [current_pos] returns the
    input state and raises nothing. *)
Theorem compute_destination_spec (s : State) (current_pos next_pos : Position) :
  let dest_x := pos_x next_pos + (pos_x next_pos - pos_x current_pos) in
  let dest_y := pos_y next_pos + (pos_y next_pos - pos_y current_pos) in
  (move_fn s = wrap_around_move_fn →
     (width s ≠ 0 → height s ≠ 0 →
        compute_destination s current_pos next_pos
        = Ret (Some (mkPosition (dest_x `mod` width s) (dest_y `mod` height s))))
     ∧ (width s = 0 ∨ height s = 0 →
        compute_destination s current_pos next_pos = Raise ZeroDivisionError))
  ∧ (move_fn s ≠ wrap_around_move_fn →
     (0 ≤ dest_x < width s ∧ 0 ≤ dest_y < height s →
        compute_destination s current_pos next_pos
        = Ret (Some (mkPosition dest_x dest_y)))
     ∧ (¬ (0 ≤ dest_x < width s ∧ 0 ≤ dest_y < height s) →
        compute_destination s current_pos next_pos = Ret None
        ∧ ∀ eid, position s !! eid = Some current_pos →
                 push_system s eid next_pos = Ret s)).
Proof.
  intros dest_x dest_y. split.
  - intros Hw. unfold compute_destination, wrap_position, py_mod.
    rewrite decide_True by done. fold dest_x dest_y. split.
    + intros Hwd Hht. by rewrite !decide_False by done.
    + intros [Hz | Hz].
      * by rewrite decide_True by done.
      * destruct (decide (width s = 0)); [done |]. simpl.
        by rewrite decide_True by done.
  - intros Hw.
    assert (∀ b, is_in_bounds s (mkPosition dest_x dest_y) = b →
      compute_destination s current_pos next_pos
      = if b then Ret (Some (mkPosition dest_x dest_y)) else Ret None) as Hcd.
    { intros b Hb. unfold compute_destination. rewrite decide_False by done.
      fold dest_x dest_y. rewrite Hb. by destruct b. }
    split.
    + intros [Hx Hy]. apply (Hcd true). unfold is_in_bounds. simpl.
      by rewrite !bool_decide_eq_true_2.
    + intros Hout.
      assert (is_in_bounds s (mkPosition dest_x dest_y) = false) as Hb.
      { unfold is_in_bounds. simpl. apply andb_false_iff.
        destruct (decide (0 ≤ dest_x < width s)) as [Hx | Hx].
        - right. apply bool_decide_eq_false_2. tauto.
        - left. by apply bool_decide_eq_false_2. }
      pose proof (Hcd false Hb) as Hnone. split; [done |].
      intros eid Hcur. unfold push_system. rewrite Hcur.
      destruct (entities_with_components_at s next_pos (pushable s));
        [done |].
      by rewrite Hnone.
Qed.

(** The three cases of C4 on concrete grids. *)
Example compute_destination_wraps :
  compute_destination wrap_world (mkPosition 1 0) (mkPosition 2 0)
  = Ret (Some (mkPosition 0 0)).
Proof. reflexivity. Qed.

Example compute_destination_in_bounds :
  compute_destination box_world (mkPosition 0 0) (mkPosition 1 0)
  = Ret (Some (mkPosition 2 0)).
Proof. reflexivity. Qed.

Example compute_destination_out_of_bounds :
  compute_destination box_world (mkPosition 1 0) (mkPosition 2 0) = Ret None.
Proof. reflexivity. Qed.

Example compute_destination_zero_width :
  compute_destination
    (world 0 1 wrap_around_move_fn
       {[ 0 := mkPosition 0 0; 1 := mkPosition 1 0 ]} ∅ ∅ ∅ ∅
       {[ 1 := MkPushable ]} ∅)
    (mkPosition 0 0) (mkPosition 1 0)
  = Raise ZeroDivisionError.
Proof. reflexivity. Qed.

(** The state that [add_trail_position] builds inside the push loop is
    dropped: whatever [push_system] returns carries the trail it was given. *)
Lemma push_system_keeps_trail (s s' : State) (eid : Z) (next_pos : Position) :
  push_system s eid next_pos = Ret s' → trail s' = trail s.
Proof.
  intros Hrun. pose proof (push_system_frame s eid next_pos) as Hf.
  rewrite Hrun in Hf. unfold same_except_position in Hf. tauto.
Qed.

(** C5 — Trail extension on push, evaluated on the 3×1 scenario.  The push
    succeeds and box 1 is relocated to (2,0), but the trail of the returned
    state has no entry for (2,0), whereas [add_trail_position] applied to
    the same arguments does record box 1 there. *)
Theorem push_trail_not_extended :
  ∃ s', push_system box_world 0 (mkPosition 1 0) = Ret s'
    ∧ position s' !! 1 = Some (mkPosition 2 0)
    ∧ trail s' !! mkPosition 2 0 = None
    ∧ trail (add_trail_position box_world 1 (mkPosition 2 0)) !! mkPosition 2 0
      = Some {[ 1 ]}.
Proof.
  eexists. split; [vm_compute; reflexivity |].
  repeat split; vm_compute; reflexivity.
Qed.

(** ** Portal system: claims *)

(** C2 — Portal teleport condition.  For a portal with a position, a portal
    component and a pair that has a position, an entity is on the pair's
    cell afterwards if it is collidable, listed in the augmented trail at
    the portal's cell and its previous position differs from its current
    one; every other entity keeps its position; in particular an entity
    resting on the portal's cell since before the step stays there. *)
Theorem portal_teleport_condition (s : State) (aug : gmap Position (gset Z))
    (portal_id : Z) (portal_position pair_position : Position) (prt : Portal) :
  position s !! portal_id = Some portal_position →
  portal s !! portal_id = Some prt →
  position s !! pair_entity prt = Some pair_position →
  let s' := portal_system_entity s aug portal_id in
  let entering e :=
    e ∈ default ∅ (aug !! portal_position)
    ∧ is_Some (collidable s !! e)
    ∧ prev_position s !! e ≠ position s !! e in
  (∀ e, entering e → position s' !! e = Some pair_position)
  ∧ (∀ e, ¬ entering e → position s' !! e = position s !! e)
  ∧ (∀ e, position s !! e = Some portal_position →
          prev_position s !! e = Some portal_position →
          position s' !! e = Some portal_position).
Proof.
  intros Hpos Hprt Hpair s' entering.
  pose proof (λ e, portal_system_entity_lookup s aug portal_id
                     portal_position pair_position prt e Hpos Hprt Hpair)
    as Hlook.
  fold s' in Hlook.
  assert (∀ e, ¬ entering e → position s' !! e = position s !! e) as Hstay.
  { intros e Hnot. rewrite Hlook, decide_False; [done |].
    by rewrite elem_of_entering_entity_ids. }
  repeat split.
  - intros e He. rewrite Hlook, decide_True; [done |].
    by apply elem_of_entering_entity_ids.
  - done.
  - intros e Hcur Hprev. rewrite Hstay; [done |].
    intros (_ & _ & Hne). congruence.
Qed.

Lemma portal_teleport_condition_witness :
  let aug := get_augmented_trail portal_world (dom (collidable portal_world)) in
  position (portal_system_entity portal_world aug 10) !! 0
  = Some (mkPosition 4 4)
  ∧ position (portal_system_entity portal_world aug 10) !! 1
    = Some (mkPosition 0 0).
Proof.
  intros aug.
  destruct (portal_teleport_condition portal_world aug 10
              (mkPosition 0 0) (mkPosition 4 4) (mkPortal 11))
    as (Henter & _ & Hrest).
  - vm_compute; reflexivity.
  - vm_compute; reflexivity.
  - vm_compute; reflexivity.
  - split.
    + apply Henter. split; [| split].
      * vm_compute; reflexivity.
      * by exists MkCollidable.
      * vm_compute; discriminate.
    + apply Hrest; vm_compute; reflexivity.
Defined.

(** C6 — Teleport bypasses destination blocking.  An entering entity is on
    the pair's cell afterwards whatever stands there: no occupancy test is
    made, and every entity that stood on the pair's cell, blocking or not,
    still stands on it. *)
Theorem teleport_ignores_blocking (s : State) (aug : gmap Position (gset Z))
    (portal_id e : Z) (portal_position pair_position : Position)
    (prt : Portal) :
  position s !! portal_id = Some portal_position →
  portal s !! portal_id = Some prt →
  position s !! pair_entity prt = Some pair_position →
  e ∈ default ∅ (aug !! portal_position) →
  is_Some (collidable s !! e) →
  prev_position s !! e ≠ position s !! e →
  let s' := portal_system_entity s aug portal_id in
  position s' !! e = Some pair_position
  ∧ (∀ b, position s !! b = Some pair_position →
          position s' !! b = Some pair_position)
  ∧ (blocker_at s pair_position true → blocker_at s' pair_position true).
Proof.
  intros Hpos Hprt Hpair Htrail Hcol Hmoved s'.
  pose proof (λ e, portal_system_entity_lookup s aug portal_id
                     portal_position pair_position prt e Hpos Hprt Hpair)
    as Hlook.
  fold s' in Hlook.
  assert (∀ b, position s !! b = Some pair_position →
               position s' !! b = Some pair_position) as Hstay.
  { intros b Hb. rewrite Hlook. by case_decide. }
  repeat split.
  - rewrite Hlook, decide_True; [done |].
    by apply elem_of_entering_entity_ids.
  - done.
  - intros (b & Hb & Hkind). exists b. split; [by apply Hstay |].
    pose proof (portal_system_entity_frame s aug portal_id) as Hf.
    fold s' in Hf. unfold same_except_position in Hf.
    destruct Hf as (_ & _ & _ & _ & _ & _ & Hblk & _ & Hcol' & _).
    by rewrite Hblk, Hcol'.
Qed.

Lemma teleport_ignores_blocking_witness :
  let aug := get_augmented_trail portal_world (dom (collidable portal_world)) in
  is_blocked_at portal_world (mkPosition 4 4) true = true
  ∧ position (portal_system_entity portal_world aug 10) !! 0
    = Some (mkPosition 4 4)
  ∧ position (portal_system_entity portal_world aug 10) !! 2
    = Some (mkPosition 4 4).
Proof.
  intros aug. split; [vm_compute; reflexivity |].
  destruct (teleport_ignores_blocking portal_world aug 10 0
              (mkPosition 0 0) (mkPosition 4 4) (mkPortal 11))
    as (Hland & Hstay & _).
  - vm_compute; reflexivity.
  - vm_compute; reflexivity.
  - vm_compute; reflexivity.
  - vm_compute; reflexivity.
  - by exists MkCollidable.
  - vm_compute; discriminate.
  - split; [exact Hland |]. apply Hstay. vm_compute; reflexivity.
Defined.

(** C7 — Portal inertness on dangling references.  If the portal has no
    position, or no portal component, or its pair has no position, the
    result is the input state.  Every operation of [portal_system_entity]
    is a total lookup or update, so the function is total: there is no
    input on which it raises. *)
Theorem portal_inert_on_dangling (s : State) (aug : gmap Position (gset Z))
    (portal_id : Z) :
  position s !! portal_id = None
  ∨ portal s !! portal_id = None
  ∨ (∃ prt, portal s !! portal_id = Some prt
            ∧ position s !! pair_entity prt = None) →
  portal_system_entity s aug portal_id = s.
Proof.
  intros Hdangling. unfold portal_system_entity.
  destruct (position s !! portal_id) as [portal_position |] eqn:Hpos,
           (portal s !! portal_id) as [prt |] eqn:Hprt; try done.
  destruct Hdangling as [? | [? | (prt' & [= <-] & Hpair)]]; try done.
  by rewrite Hpair.
Qed.

Lemma portal_inert_on_dangling_witness :
  let aug :=
    get_augmented_trail dangling_world (dom (collidable dangling_world)) in
  portal_system_entity dangling_world aug 10 = dangling_world
  ∧ portal_system_entity dangling_world aug 11 = dangling_world
  ∧ portal_system_entity dangling_world aug 0 = dangling_world.
Proof.
  intros aug. split; [| split]; apply portal_inert_on_dangling.
  - right. right. exists (mkPortal 11). split; vm_compute; reflexivity.
  - left. vm_compute; reflexivity.
  - right. left. vm_compute; reflexivity.
Defined.

(** ** Frame: claim *)

(** C10 — Position-only frame.  A state returned by [push_system] agrees
    with the input on every field but [position]; the only inputs on which
    it returns no state are those where the wrap rule divides by a zero
    width or height.  [portal_system_entity] and [portal_system] always
    return a state, and it agrees with the input on every field but
    [position]. *)
Theorem position_only_frame (s : State) (eid : Z) (next_pos : Position) :
  match push_system s eid next_pos with
  | Ret s' => same_except_position s s'
  | Raise e => e = ZeroDivisionError ∧ move_fn s = wrap_around_move_fn
               ∧ (width s = 0 ∨ height s = 0)
  end
  ∧ (∀ aug portal_id,
       same_except_position s (portal_system_entity s aug portal_id))
  ∧ same_except_position s (portal_system s).
Proof.
  split; [apply push_system_frame |].
  split; [apply portal_system_entity_frame |].
  unfold portal_system. apply portal_system_over_frame.
Qed.

(** ** Level editor: dicts, loops and enumeration *)

Lemma dict_get_elem_of {K V : Type} `{EqDecision K} (k : K) (v : V)
    (d : list (K * V)) :
  dict_get k d = Some v → (k, v) ∈ d.
Proof.
  induction d as [| [k' v'] d IH]; simpl; [done |].
  case_decide as Hk.
  - intros [= ->]. subst. apply list_elem_of_here.
  - intros Hget. apply list_elem_of_further. by apply IH.
Qed.

Lemma dict_set_values {K V : Type} `{EqDecision K} (k : K) (v w : V)
    (d : list (K * V)) :
  w ∈ (dict_set k v d).*2 → w = v ∨ w ∈ d.*2.
Proof.
  induction d as [| [k' v'] d IH]; simpl.
  - intros Hw%list_elem_of_singleton. by left.
  - case_decide; simpl; rewrite !elem_of_cons; [tauto |].
    intros [-> | Hw]; [tauto |]. apply IH in Hw. tauto.
Qed.

Lemma dict_set_values_NoDup {K V : Type} `{EqDecision K} (k : K) (v : V)
    (d : list (K * V)) :
  v ∉ d.*2 → NoDup d.*2 → NoDup (dict_set k v d).*2.
Proof.
  induction d as [| [k' v'] d IH]; simpl; intros Hv Hnd.
  - apply NoDup_singleton.
  - apply NoDup_cons in Hnd as [Hv' Hnd].
    apply not_elem_of_cons in Hv as [Hne Hv].
    case_decide; simpl; apply NoDup_cons; split; try done.
    + intros [-> | Hin]%dict_set_values; done.
    + by apply IH.
Qed.

Lemma dict_values_inj {K V : Type} (k1 k2 : K) (v : V) (d : list (K * V)) :
  NoDup d.*2 → (k1, v) ∈ d → (k2, v) ∈ d → k1 = k2.
Proof.
  induction d as [| [k' v'] d IH]; simpl; intros Hnd H1 H2.
  - by apply elem_of_nil in H1.
  - apply NoDup_cons in Hnd as [Hv' Hnd].
    assert (∀ k, (k, v') ∈ d → False) as Hfresh.
    { intros k Hk. apply Hv'. apply list_elem_of_fmap. by exists (k, v'). }
    apply elem_of_cons in H1 as [H1 | H1];
      apply elem_of_cons in H2 as [H2 | H2].
    + congruence.
    + exfalso. apply (Hfresh k2). congruence.
    + exfalso. apply (Hfresh k1). congruence.
    + by apply IH.
Qed.

Lemma exn_fold_invariant {A B : Type} (I : B → Prop) (f : B → A → exn B)
    (l : list A) :
  (∀ b a b', I b → f b a = Ret b' → I b') →
  ∀ b b', I b → exn_fold f l b = Ret b' → I b'.
Proof.
  intros Hstep. induction l as [| a l IH]; simpl; intros b b' Hb.
  - by intros [= <-].
  - destruct (f b a) as [b1 |] eqn:Hf; simpl; [| done].
    apply IH. by eapply Hstep.
Qed.

Lemma exn_fold_returns {A B : Type} (D : A → Prop) (f : B → A → exn B)
    (l : list A) :
  (∀ b a, D a → ∃ b', f b a = Ret b') →
  Forall D l → ∀ b, ∃ b', exn_fold f l b = Ret b'.
Proof.
  intros Hstep Hl. induction Hl as [| a l Ha Hl IH]; simpl; intros b.
  - by exists b.
  - destruct (Hstep b a Ha) as [b1 ->]. simpl. apply IH.
Qed.

Lemma py_range_bounds (n : Z) : Forall (λ i, 0 ≤ i < n) (py_range n).
Proof.
  unfold py_range. apply Forall_fmap, Forall_forall.
  intros k Hk%elem_of_seq. simpl. lia.
Qed.

Lemma py_index_in_range {A : Type} (l : list A) (i : Z) (a : A) :
  0 ≤ i → l !! Z.to_nat i = Some a → py_index l i = Ret a.
Proof.
  intros Hi Hl. unfold py_index.
  destruct (decide (i < 0)) as [Hneg | _]; [lia |]. simpl.
  destruct (decide (i < 0)) as [Hneg | _]; [lia |]. by rewrite Hl.
Qed.

Lemma sequential_pairs_cells {A : Type} (l : list A) :
  ∃ r, l = pair_cells (sequential_pairs l) ++ r.
Proof.
  assert ((∃ r, l = pair_cells (sequential_pairs l) ++ r)
          ∧ ∀ x, ∃ r, x :: l = pair_cells (sequential_pairs (x :: l)) ++ r)
    as [H _]; [| exact H].
  induction l as [| a l [IH1 IH2]].
  - split; [by exists [] | intros x; by exists [x]].
  - split; [apply IH2 |].
    intros x. destruct IH1 as [r Hr]. exists r.
    unfold pair_cells in *. simpl. do 2 f_equal. exact Hr.
Qed.

Lemma sequential_pairs_NoDup {A : Type} (l : list A) :
  NoDup l → NoDup (pair_cells (sequential_pairs l)).
Proof.
  intros Hnd. destruct (sequential_pairs_cells l) as [r Hr].
  rewrite Hr in Hnd. by apply NoDup_app in Hnd as [? _].
Qed.

Lemma enumerate_from_index {A : Type} (i j : Z) (a : A) (l : list A) :
  (j, a) ∈ enumerate_from i l → i ≤ j.
Proof.
  revert i. induction l as [| a' l IH]; simpl; intros i.
  - by intros ?%elem_of_nil.
  - intros [[= -> ->] | Hin]%elem_of_cons; [lia |].
    apply IH in Hin. lia.
Qed.

Lemma row_portals_elem (yy : Z) (row : list (list Token)) (c : Z * Z) (i : Z) :
  c ∈ omap (λ xc, if has_portal xc.2 then Some (xc.1, yy) else None)
           (enumerate_from i row) →
  c.2 = yy ∧ i ≤ c.1.
Proof.
  intros (xc & Hin & Hc)%list_elem_of_omap.
  destruct xc as [xx cell]. simpl in Hc.
  destruct (has_portal cell); [| done]. injection Hc as <-. simpl.
  split; [done |]. by eapply enumerate_from_index.
Qed.

Lemma row_portals_NoDup (yy : Z) (row : list (list Token)) :
  NoDup (row_portals yy row).
Proof.
  unfold row_portals, enumerate. generalize 0.
  induction row as [| cell row IH]; intros i; simpl.
  - apply NoDup_nil_2.
  - destruct (has_portal cell); [| apply IH].
    apply NoDup_cons. split; [| apply IH].
    intros [_ Hle]%row_portals_elem. simpl in Hle. lia.
Qed.

Lemma grid_portals_NoDup (grid : list (list (list Token))) :
  NoDup (grid_portals grid).
Proof.
  unfold grid_portals, enumerate. generalize 0.
  assert (∀ (g : list (list (list Token))) (i : Z) (c : Z * Z),
    c ∈ concat ((λ yr, row_portals yr.1 yr.2) <$> enumerate_from i g) →
    i ≤ c.2) as Hrows.
  { induction g as [| row g IH]; simpl; intros i c.
    - by intros ?%elem_of_nil.
    - intros [Hin | Hin]%elem_of_app.
      + apply row_portals_elem in Hin as [-> _]. lia.
      + apply IH in Hin. lia. }
  induction grid as [| row grid IH]; intros i; simpl.
  - apply NoDup_nil_2.
  - apply NoDup_app. split; [apply row_portals_NoDup |]. split; [| apply IH].
    intros c [Hy _]%row_portals_elem Hin%Hrows. lia.
Qed.

Lemma dict_set_keys {K V : Type} `{EqDecision K} (k : K) (v : V)
    (d : list (K * V)) :
  (dict_set k v d).*1 = if decide (k ∈ d.*1) then d.*1 else d.*1 ++ [k].
Proof.
  induction d as [| [k' v'] d IH]; [done |].
  change (dict_set k v ((k', v') :: d))
    with (if decide (k = k') then (k, v) :: d
          else (k', v') :: dict_set k v d).
  rewrite fmap_cons. change ((k', v').1) with k'.
  destruct (decide (k = k')) as [-> | Hne].
  - rewrite fmap_cons. rewrite decide_True; [done | apply list_elem_of_here].
  - rewrite fmap_cons, IH. change ((k', v').1) with k'.
    destruct (decide (k ∈ d.*1)) as [Hin | Hnin].
    + rewrite decide_True; [done | by apply list_elem_of_further].
    + rewrite decide_False; [done |].
      intros [? | ?]%elem_of_cons; contradiction.
Qed.

Lemma dict_set_keys_NoDup {K V : Type} `{EqDecision K} (k : K) (v : V)
    (d : list (K * V)) :
  NoDup d.*1 → NoDup (dict_set k v d).*1.
Proof.
  intros Hnd. rewrite dict_set_keys. case_decide as Hin; [done |].
  apply NoDup_app. split; [done |]. split; [| apply NoDup_singleton].
  intros x Hx ->%list_elem_of_singleton. contradiction.
Qed.

(** ** Level editor: portal pairing *)

Lemma set_portal_pair_ref_length (o r : nat) (objs : list EntitySpec) :
  length (set_portal_pair_ref o r objs) = length objs.
Proof. apply length_alter. Qed.

Lemma ref_of_set_eq (o r : nat) (objs : list EntitySpec) :
  (o < length objs)%nat → ref_of (set_portal_pair_ref o r objs) o = Some r.
Proof.
  intros Hlt. unfold ref_of, set_portal_pair_ref.
  rewrite list_lookup_alter_eq.
  destruct (lookup_lt_is_Some_2 objs o Hlt) as [sp ->]. done.
Qed.

Lemma ref_of_set_ne (o r i : nat) (objs : list EntitySpec) :
  o ≠ i → ref_of (set_portal_pair_ref o r objs) i = ref_of objs i.
Proof.
  intros Hne. unfold ref_of, set_portal_pair_ref.
  by rewrite list_lookup_alter_ne.
Qed.

Lemma pair_step_length (ps : list ((Z * Z) * nat)) (objs : list EntitySpec)
    (pr : (Z * Z) * (Z * Z)) :
  length (pair_step ps objs pr) = length objs.
Proof.
  unfold pair_step.
  destruct (dict_get pr.1 ps) as [a |], (dict_get pr.2 ps) as [b |]; try done.
  case_decide; [| done].
  destruct (portal_pair_ref <$> set_portal_pair_ref a b objs !! b)
    as [[r |] |]; by rewrite ?set_portal_pair_ref_length.
Qed.

Lemma pair_step_fresh (ps : list ((Z * Z) * nat)) (objs : list EntitySpec)
    (pr : (Z * Z) * (Z * Z)) (a b : nat) :
  dict_get pr.1 ps = Some a → dict_get pr.2 ps = Some b → a ≠ b →
  (a < length objs)%nat → (b < length objs)%nat →
  ref_of objs b = None →
  ref_of (pair_step ps objs pr) a = Some b
  ∧ ref_of (pair_step ps objs pr) b = Some a
  ∧ ∀ o, o ≠ a → o ≠ b → ref_of (pair_step ps objs pr) o = ref_of objs o.
Proof.
  intros Ha Hb Hne Hla Hlb Hrb. unfold pair_step. rewrite Ha, Hb.
  rewrite decide_True by done.
  assert (ref_of (set_portal_pair_ref a b objs) b = None) as Hrb'
    by by rewrite ref_of_set_ne.
  assert (set_portal_pair_ref b a (set_portal_pair_ref a b objs)
          = match portal_pair_ref <$> set_portal_pair_ref a b objs !! b with
            | Some (Some _) => set_portal_pair_ref a b objs
            | _ => set_portal_pair_ref b a (set_portal_pair_ref a b objs)
            end) as <-.
  { unfold ref_of in Hrb'.
    destruct (set_portal_pair_ref a b objs !! b) as [sp |]; simpl in *;
      [| done].
    by rewrite Hrb'. }
  split; [| split].
  - rewrite ref_of_set_ne by done. by apply ref_of_set_eq.
  - apply ref_of_set_eq. by rewrite set_portal_pair_ref_length.
  - intros o Hoa Hob. by rewrite !ref_of_set_ne by done.
Qed.

Lemma pair_loop_symmetric (ps : list ((Z * Z) * nat))
    (pairs : list ((Z * Z) * (Z * Z))) (objs : list EntitySpec) :
  NoDup ps.*2 →
  (∀ c o, dict_get c ps = Some o → (o < length objs)%nat) →
  NoDup (pair_cells pairs) →
  (∀ c o, c ∈ pair_cells pairs → dict_get c ps = Some o →
          ref_of objs o = None) →
  refs_symmetric objs →
  refs_symmetric (fold_left (pair_step ps) pairs objs).
Proof.
  intros Hinj. revert objs.
  induction pairs as [| [a_pos b_pos] pairs IH]; intros objs Hbound Hnd Hnone Hsym;
    [done |].
  simpl. unfold pair_cells in Hnd, Hnone. simpl in Hnd, Hnone.
  fold (pair_cells pairs) in Hnd, Hnone.
  apply NoDup_cons in Hnd as [Ha_fresh Hnd].
  apply NoDup_cons in Hnd as [Hb_fresh Hnd].
  apply not_elem_of_cons in Ha_fresh as [_ Ha_fresh].
  apply IH.
  - intros c o Hget. rewrite pair_step_length. by eapply Hbound.
  - done.
  - intros c o Hc Hget.
    assert (ref_of objs o = None) as Ho.
    { apply (Hnone c); [| done]. by do 2 apply list_elem_of_further. }
    unfold pair_step at 1. simpl.
    destruct (dict_get a_pos ps) as [a |] eqn:Ha; [| done].
    destruct (dict_get b_pos ps) as [b |] eqn:Hb; [| done].
    destruct (decide (a ≠ b)) as [Hne | _]; [| done].
    assert (o ≠ a) as Hoa.
    { intros ->. apply Ha_fresh.
      by rewrite <- (dict_values_inj c a_pos a ps Hinj
                       (dict_get_elem_of _ _ _ Hget)
                       (dict_get_elem_of _ _ _ Ha)). }
    assert (o ≠ b) as Hob.
    { intros ->. apply Hb_fresh.
      by rewrite <- (dict_values_inj c b_pos b ps Hinj
                       (dict_get_elem_of _ _ _ Hget)
                       (dict_get_elem_of _ _ _ Hb)). }
    destruct (pair_step_fresh ps objs (a_pos, b_pos) a b) as (_ & _ & Hrest);
      try done.
    + by eapply Hbound.
    + by eapply Hbound.
    + apply (Hnone b_pos); [| done].
      apply list_elem_of_further, list_elem_of_here.
    + unfold pair_step in Hrest. simpl in Hrest. rewrite Ha, Hb in Hrest.
      rewrite decide_True in Hrest by done. by rewrite Hrest.
  - destruct (dict_get a_pos ps) as [a |] eqn:Ha;
      [| unfold pair_step; simpl; by rewrite Ha].
    destruct (dict_get b_pos ps) as [b |] eqn:Hb;
      [| unfold pair_step; simpl; by rewrite Ha, Hb].
    destruct (decide (a = b)) as [Heq | Hne].
    { unfold pair_step; simpl. rewrite Ha, Hb.
      rewrite decide_False; [done | by intros ?]. }
    assert (ref_of objs a = None) as Hra
      by (apply (Hnone a_pos); [apply list_elem_of_here | done]).
    assert (ref_of objs b = None) as Hrb.
    { apply (Hnone b_pos); [| done].
      apply list_elem_of_further, list_elem_of_here. }
    destruct (pair_step_fresh ps objs (a_pos, b_pos) a b)
      as (Hab & Hba & Hrest); try done.
    { by eapply Hbound. }
    { by eapply Hbound. }
    intros x y Hxy.
    destruct (decide (x = a)) as [-> | Hxa].
    { rewrite Hab in Hxy. by injection Hxy as <-. }
    destruct (decide (x = b)) as [-> | Hxb].
    { rewrite Hba in Hxy. by injection Hxy as <-. }
    rewrite Hrest in Hxy by done. pose proof (Hsym x y Hxy) as Hyx.
    rewrite Hrest; [done | |]; intros ->; congruence.
Qed.

(** ** Level editor: the token loop *)

Section EditorProperties.

Variable factory_accepts : FactoryCall → bool.
Variable to_state : Level → exn State.

Lemma build_token_inv (x y : Z) (b : Build) (token : Token) :
  build_inv b → build_inv (build_token factory_accepts x y b token).
Proof.
  intros (Hnone & Hbound & Hkeys & Hvals). unfold build_token.
  case_decide; [done |].
  destruct (dict_get (tok_type token) (PALETTE factory_accepts))
    as [tool |]; [| done].
  destruct (builder tool) as [bld |]; [| done].
  destruct (build_spec bld _ _) as [call |]; [| done].
  unfold build_inv. simpl. rewrite length_app. simpl.
  split; [| split; [| split]].
  - apply Forall_app. split; [done |]. by apply Forall_singleton.
  - intros o Ho. case_decide.
    + apply dict_set_values in Ho as [-> | Ho]; [lia |].
      apply Hbound in Ho. lia.
    + apply Hbound in Ho. lia.
  - case_decide; [by apply dict_set_keys_NoDup | done].
  - case_decide; [| done]. apply dict_set_values_NoDup; [| done].
    intros Hin%Hbound. lia.
Qed.

Lemma build_tokens_inv (x y : Z) (tokens : list Token) (b : Build) :
  build_inv b →
  build_inv (fold_left (build_token factory_accepts x y) tokens b).
Proof.
  revert b. induction tokens as [| t tokens IH]; intros b Hb; [done |].
  simpl. by apply IH, build_token_inv.
Qed.

Lemma build_row_inv (cfg : EditorConfig) (b b' : Build) (y : Z) :
  build_inv b → build_row factory_accepts cfg b y = Ret b' → build_inv b'.
Proof.
  unfold build_row. apply exn_fold_invariant.
  intros b1 x b2 Hb1. unfold build_cell.
  destruct (py_index (grid_tokens cfg) y) as [row |]; simpl; [| done].
  destruct (py_index row x) as [tokens |]; simpl; [| done].
  intros [= <-]. by apply build_tokens_inv.
Qed.

Lemma build_row_returns (cfg : EditorConfig) (b : Build) (y : Z) :
  well_shaped cfg → 0 ≤ y < cfg_height cfg →
  ∃ b', build_row factory_accepts cfg b y = Ret b'.
Proof.
  intros Hshape Hy. unfold build_row.
  apply (exn_fold_returns (λ x, 0 ≤ x < cfg_width cfg));
    [| apply py_range_bounds].
  intros b1 x Hx. destruct (Hshape y x Hy Hx) as (row & tokens & Hrow & Hcell).
  unfold build_cell.
  rewrite (py_index_in_range _ y row) by (done || lia). simpl.
  rewrite (py_index_in_range _ x tokens) by (done || lia). simpl.
  by eexists.
Qed.

Lemma build_level_returns (st : SessionState) (cfg : EditorConfig) :
  well_shaped cfg →
  ∃ lvl, _build_level_from_tokens factory_accepts st cfg = Ret lvl.
Proof.
  intros Hshape. unfold _build_level_from_tokens.
  destruct (exn_fold_returns (λ y, 0 ≤ y < cfg_height cfg)
              (build_row factory_accepts cfg) (py_range (cfg_height cfg)))
    with (b := mkBuild [] [] []) as [b ->].
  - intros b y Hy. by apply build_row_returns.
  - apply py_range_bounds.
  - simpl. by eexists.
Qed.

Lemma build_level_symmetric (st : SessionState) (cfg : EditorConfig)
    (lvl : Level) :
  authored_session st →
  _build_level_from_tokens factory_accepts st cfg = Ret lvl →
  refs_symmetric (lvl_objects lvl).
Proof.
  intros Hst. unfold _build_level_from_tokens.
  destruct (exn_fold (build_row factory_accepts cfg)
              (py_range (cfg_height cfg)) (mkBuild [] [] []))
    as [b |] eqn:Hloop; simpl; [| done].
  intros [= <-]. simpl.
  assert (build_inv b) as (Hnone & Hbound & Hkeys & Hvals).
  { eapply (exn_fold_invariant build_inv); [| | exact Hloop].
    - intros b1 y b2. apply build_row_inv.
    - repeat split; simpl; try apply NoDup_nil_2; try by apply Forall_nil.
      by intros o ?%elem_of_nil. }
  assert (∀ o, ref_of (b_objects b) o = None) as Hfresh.
  { intros o. unfold ref_of.
    destruct (b_objects b !! o) as [sp |] eqn:Hsp; [| done]. simpl.
    eapply Forall_lookup_1 in Hnone; [exact Hnone | exact Hsp]. }
  apply pair_loop_symmetric; try done.
  - intros c o Hget%dict_get_elem_of. apply Hbound.
    apply list_elem_of_fmap. by exists (c, o).
  - destruct Hst as [Hnopairs | (grid & st0 & ->)].
    + rewrite Hnopairs. by apply sequential_pairs_NoDup.
    + simpl. apply sequential_pairs_NoDup, grid_portals_NoDup.
  - intros a b' Hab. by rewrite Hfresh in Hab.
Qed.

(** C9 — Portal pairing symmetry.  With the stored pairs absent or written
    by [_pair_portals]: the level builder returns a level on every
    snapshot that has its cells; in every level it returns, whenever a
    spec's [portal_pair_ref] is [b], that of [b] is the spec itself; and
    in any state where portals [A] and [B] name each other, an entity
    entering [A] lands on the position of [B] and an entity entering [B]
    lands on the position of [A]. *)
Theorem portal_pairing_symmetric (st : SessionState) (cfg : EditorConfig) :
  authored_session st →
  (well_shaped cfg →
     ∃ lvl, _build_level_from_tokens factory_accepts st cfg = Ret lvl)
  ∧ (∀ lvl, _build_level_from_tokens factory_accepts st cfg = Ret lvl →
            refs_symmetric (lvl_objects lvl))
  ∧ (∀ (s : State) (aug : gmap Position (gset Z)) (A B : Z)
       (pA pB : Position),
       portal s !! A = Some (mkPortal B) →
       portal s !! B = Some (mkPortal A) →
       position s !! A = Some pA →
       position s !! B = Some pB →
       (∀ e, e ∈ entering_entity_ids s aug pA →
             position (portal_system_entity s aug A) !! e = Some pB)
       ∧ (∀ e, e ∈ entering_entity_ids s aug pB →
               position (portal_system_entity s aug B) !! e = Some pA)).
Proof.
  intros Hst. split; [| split].
  - apply build_level_returns.
  - intros lvl. by apply build_level_symmetric.
  - intros s aug A B pA pB HA HB HpA HpB. split; intros e He.
    + rewrite (portal_system_entity_lookup s aug A pA pB (mkPortal B))
        by done.
      by rewrite decide_True.
    + rewrite (portal_system_entity_lookup s aug B pB pA (mkPortal A))
        by done.
      by rewrite decide_True.
Qed.

(** C8 — Agent-presence validation.  On a snapshot that has its cells the
    level is built; for the state [s] that [to_state] makes of it,
    [_make_env] raises the [ValueError] when the agent store of [s] is
    empty and returns an environment over [s] otherwise; it raises
    nothing else. *)
Theorem make_env_requires_agent (st : SessionState) (cfg : EditorConfig) :
  well_shaped cfg →
  ∃ lvl, _build_level_from_tokens factory_accepts st cfg = Ret lvl
    ∧ ∀ s, to_state lvl = Ret s →
        (agent s = ∅ →
           ∃ msg, _make_env factory_accepts to_state st cfg
                  = Raise (ValueError msg))
        ∧ (agent s ≠ ∅ →
           ∃ env, _make_env factory_accepts to_state st cfg = Ret env
                  ∧ env_width env = width s
                  ∧ env_height env = height s
                  ∧ initial_state_fn env st = Ret s)
        ∧ (∀ e, _make_env factory_accepts to_state st cfg = Raise e →
                agent s = ∅ ∧ ∃ msg, e = ValueError msg).
Proof.
  intros Hshape. destruct (build_level_returns st cfg Hshape) as [lvl Hlvl].
  exists lvl. split; [done |]. intros s Hs.
  assert (_initial_state_fn factory_accepts to_state cfg st = Ret s) as Hinit
    by (unfold _initial_state_fn; by rewrite Hlvl).
  unfold _make_env. rewrite Hinit. simpl.
  destruct (decide (agent s = ∅)) as [Hempty | Hagent].
  - split; [| split].
    + intros _. by eexists.
    + done.
    + intros e [= <-]. split; [done | by eexists].
  - split; [| split].
    + done.
    + intros _. eexists. split; [reflexivity |]. by simpl.
    + done.
Qed.

End EditorProperties.

Lemma portal_cfg_well_shaped : well_shaped portal_cfg.
Proof.
  intros y x Hy Hx. simpl in Hy, Hx.
  assert (y = 0) as -> by lia.
  assert (x = 0 ∨ x = 1 ∨ x = 2) as [-> | [-> | ->]] by lia;
    by eexists _, _.
Qed.

Lemma no_agent_cfg_well_shaped : well_shaped no_agent_cfg.
Proof.
  intros y x Hy Hx. simpl in Hy, Hx.
  assert (y = 0) as -> by lia.
  assert (x = 0 ∨ x = 1) as [-> | ->] by lia; by eexists _, _.
Qed.

(** The two portals of [portal_cfg] are objects 1 and 5; they end up naming
    each other, with or without stored pairs. *)
Example portal_cfg_pairs :
  ∃ lvl, _build_level_from_tokens (λ _, true)
           (_pair_portals (grid_tokens portal_cfg) (mkSessionState None))
           portal_cfg = Ret lvl
    ∧ ref_of (lvl_objects lvl) 1 = Some 5%nat
    ∧ ref_of (lvl_objects lvl) 5 = Some 1%nat.
Proof. eexists. split; [vm_compute; reflexivity |]. by vm_compute. Qed.

Lemma portal_pairing_symmetric_witness :
  ∃ lvl, _build_level_from_tokens (λ _, true) (mkSessionState None) portal_cfg
         = Ret lvl
    ∧ refs_symmetric (lvl_objects lvl).
Proof.
  destruct (portal_pairing_symmetric (λ _, true) (mkSessionState None)
              portal_cfg) as (Hret & Hsym & _).
  - left. reflexivity.
  - destruct (Hret portal_cfg_well_shaped) as [lvl Hlvl].
    exists lvl. split; [exact Hlvl | by apply Hsym].
Defined.

Lemma make_env_requires_agent_witness :
  (∃ msg, _make_env (λ _, true) convert_level (mkSessionState None)
            no_agent_cfg = Raise (ValueError msg))
  ∧ (∃ env, _make_env (λ _, true) convert_level (mkSessionState None)
              portal_cfg = Ret env).
Proof.
  split.
  - destruct (make_env_requires_agent (λ _, true) convert_level
                (mkSessionState None) no_agent_cfg no_agent_cfg_well_shaped)
      as (lvl & Hlvl & Hs).
    vm_compute in Hlvl. injection Hlvl as <-.
    destruct (Hs _ eq_refl) as (Hraise & _ & _).
    apply Hraise. vm_compute; reflexivity.
  - destruct (make_env_requires_agent (λ _, true) convert_level
                (mkSessionState None) portal_cfg portal_cfg_well_shaped)
      as (lvl & Hlvl & Hs).
    vm_compute in Hlvl. injection Hlvl as <-.
    destruct (Hs _ eq_refl) as (_ & Hok & _).
    destruct Hok as (env & Henv & _); [| by exists env].
    vm_compute. discriminate.
Defined.

(** * Further properties *)

(** ** Push system *)

Lemma is_in_bounds_true (s : State) (p : Position) :
  is_in_bounds s p = true
  ↔ 0 ≤ pos_x p < width s ∧ 0 ≤ pos_y p < height s.
Proof.
  unfold is_in_bounds. rewrite andb_true_iff, !bool_decide_eq_true. tauto.
Qed.

Lemma state_eq_by_position (s s' : State) :
  same_except_position s s' → position s' = position s → s' = s.
Proof.
  unfold same_except_position. destruct s, s'; simpl. intros H Hp.
  repeat match goal with H : _ ∧ _ |- _ => destruct H as [? H] end.
  by subst.
Qed.

Lemma push_system_idle (s : State) (eid : Z) (next_pos : Position) :
  position s !! eid = None
  ∨ (∀ p, position s !! p = Some next_pos → pushable s !! p = None) →
  push_system s eid next_pos = Ret s.
Proof.
  intros Hcase. unfold push_system.
  destruct (position s !! eid) as [cur |] eqn:Hcur; [| done].
  destruct Hcase as [? | Hnone]; [done |].
  destruct (entities_with_components_at s next_pos (pushable s))
    as [| p ids] eqn:Hids; [done |].
  assert (p ∈ entities_with_components_at s next_pos (pushable s)) as Hin
    by (rewrite Hids; apply list_elem_of_here).
  apply elem_of_entities_with_components_at in Hin as [Hp [v Hv]].
  rewrite (Hnone p Hp) in Hv. done.
Qed.

(** X1 — A pusher without a position, or a target cell without any pushable
    entity, leaves nothing to do: the input state is returned, whatever the
    movement rule and the grid. *)
Theorem push_system_nothing_to_push (s : State) (eid : Z) (next_pos : Position) :
  position s !! eid = None
  ∨ (∀ p, position s !! p = Some next_pos → pushable s !! p = None) →
  push_system s eid next_pos = Ret s.
Proof. apply push_system_idle. Qed.

Lemma push_system_nothing_to_push_witness :
  push_system box_world 7 (mkPosition 1 0) = Ret box_world
  ∧ push_system box_world 0 (mkPosition 2 0) = Ret box_world.
Proof.
  split; apply push_system_nothing_to_push.
  - left. vm_compute; reflexivity.
  - right. intros p Hp.
    assert (p ∈ entities_at box_world (mkPosition 2 0)) as Hin
      by by apply elem_of_entities_at.
    vm_compute in Hin. discriminate Hin.
Defined.

Lemma compute_destination_bounded (s : State) (cur next_pos dest : Position) :
  compute_destination s cur next_pos = Ret (Some dest) →
  (move_fn s = wrap_around_move_fn → 0 < width s ∧ 0 < height s) →
  is_in_bounds s dest = true.
Proof.
  unfold compute_destination, wrap_position, py_mod. intros Hdest Hdims.
  destruct (decide (move_fn s = wrap_around_move_fn)) as [Hw | Hw].
  - destruct (Hdims Hw) as [Hwd Hht].
    rewrite !decide_False in Hdest by lia. simpl in Hdest.
    injection Hdest as <-. apply is_in_bounds_true. simpl.
    split; apply Z.mod_pos_bound; lia.
  - destruct (is_in_bounds s _) eqn:Hb; simpl in Hdest; [| done].
    by injection Hdest as <-.
Qed.

(** X2 — A destination returned by [compute_destination] lies inside the
    grid: always under a bounded rule, and under the wrap rule as soon as
    the grid has a positive width and height. *)
Theorem compute_destination_in_grid (s : State) (cur next_pos dest : Position) :
  compute_destination s cur next_pos = Ret (Some dest) →
  (move_fn s = wrap_around_move_fn → 0 < width s ∧ 0 < height s) →
  is_in_bounds s dest = true.
Proof. apply compute_destination_bounded. Qed.

Lemma compute_destination_in_grid_witness :
  is_in_bounds wrap_world (mkPosition 0 0) = true.
Proof.
  apply (compute_destination_in_grid wrap_world (mkPosition 1 0)
           (mkPosition 2 0)).
  - reflexivity.
  - intros _. simpl. lia.
Defined.

(** X3 — Pushing keeps the world inside the grid: when every positioned entity
    is in bounds and the target cell is in bounds, [push_system] returns a
    state (it cannot hit the zero division) in which every positioned
    entity is in bounds again. *)
Theorem push_system_keeps_in_bounds (s : State) (eid : Z) (next_pos : Position) :
  all_in_bounds s →
  is_in_bounds s next_pos = true →
  ∃ s', push_system s eid next_pos = Ret s' ∧ all_in_bounds s'.
Proof.
  intros Hall Hnext.
  destruct (position s !! eid) as [cur |] eqn:Hcur;
    [| exists s; split; [| done];
       apply push_system_idle; by left].
  assert (0 < width s ∧ 0 < height s) as Hdims.
  { apply Hall, is_in_bounds_true in Hcur. lia. }
  destruct (entities_with_components_at s next_pos (pushable s))
    as [| p ids] eqn:Hids.
  { exists s. split; [| done]. unfold push_system. by rewrite Hcur, Hids. }
  destruct (compute_destination s cur next_pos) as [[dest |] | err] eqn:Hdest.
  - assert (entities_with_components_at s next_pos (pushable s) ≠ []) as Hne
      by by rewrite Hids.
    rewrite (push_system_unfold s eid cur next_pos dest Hcur Hne Hdest).
    destruct (is_blocked_at s dest true); [by exists s |].
    eexists. split; [reflexivity |].
    intros e q. simpl. rewrite push_loop_lookup.
    assert (is_in_bounds s dest = true) as Hd
      by (eapply compute_destination_bounded; [done | by intros _]).
    case_decide.
    + by intros [= <-].
    + destruct (decide (eid = e)) as [-> | Hne'].
      * rewrite lookup_insert_eq. by intros [= <-].
      * rewrite lookup_insert_ne by done. apply Hall.
  - exists s. split; [| done]. unfold push_system.
    by rewrite Hcur, Hids, Hdest.
  - apply compute_destination_raises in Hdest as (_ & _ & Hzero). lia.
Qed.

Lemma box_world_in_bounds : all_in_bounds box_world.
Proof.
  intros e p Hp. unfold box_world, world in Hp. simpl in Hp.
  apply lookup_insert_Some in Hp as [[_ <-] | [_ Hp]]; [reflexivity |].
  apply lookup_singleton_Some in Hp as [_ <-]. reflexivity.
Qed.

Lemma push_system_keeps_in_bounds_witness :
  ∃ s', push_system box_world 0 (mkPosition 1 0) = Ret s' ∧ all_in_bounds s'.
Proof.
  apply push_system_keeps_in_bounds.
  - apply box_world_in_bounds.
  - reflexivity.
Defined.

(** X4 — A push neither creates nor deletes a position entry: the entities that
    have a position after it are those that had one before. *)
Theorem push_system_preserves_positioned (s s' : State) (eid : Z)
    (next_pos : Position) :
  push_system s eid next_pos = Ret s' →
  dom (position s') = dom (position s).
Proof.
  unfold push_system.
  destruct (position s !! eid) as [cur |] eqn:Hcur; [| by intros [= <-]].
  destruct (entities_with_components_at s next_pos (pushable s))
    as [| p ids] eqn:Hids; [by intros [= <-] |].
  destruct (compute_destination s cur next_pos) as [[dest |] | err];
    cbn [exn_bind]; [| by intros [= <-] | done].
  destruct (is_blocked_at s dest true); [by intros [= <-] |].
  intros [= <-]. cbn [position replace_position].
  change (fold_left (push_step s dest) ids
            (push_step s dest (<[eid:=next_pos]> (position s)) p))
    with (fold_left (push_step s dest) (p :: ids)
            (<[eid:=next_pos]> (position s))).
  rewrite <- Hids.
  apply set_eq. intros e.
  rewrite !elem_of_dom, push_loop_lookup.
  case_decide as Hin.
  - apply elem_of_entities_with_components_at in Hin as [Hp _].
    rewrite Hp. split; by eexists.
  - destruct (decide (eid = e)) as [-> | Hne].
    + rewrite lookup_insert_eq, Hcur. split; by eexists.
    + by rewrite lookup_insert_ne.
Qed.

Lemma push_system_preserves_positioned_witness :
  ∃ s', push_system box_world 0 (mkPosition 1 0) = Ret s'
    ∧ dom (position s') = dom (position box_world).
Proof.
  eexists. split; [vm_compute; reflexivity |].
  apply (push_system_preserves_positioned box_world _ 0 (mkPosition 1 0)).
  vm_compute; reflexivity.
Defined.

(** ** Portal system *)

(** One portal either leaves an entity where it was, or moves a collidable
    entity whose position changed this step onto a cell that some entity
    occupied before. *)
Lemma portal_system_entity_cases (s : State) (aug : gmap Position (gset Z))
    (portal_id e : Z) :
  position (portal_system_entity s aug portal_id) !! e = position s !! e
  ∨ (is_Some (collidable s !! e)
     ∧ prev_position s !! e ≠ position s !! e
     ∧ ∃ q p, position s !! q = Some p
              ∧ position (portal_system_entity s aug portal_id) !! e = Some p).
Proof.
  destruct (position s !! portal_id) as [pp |] eqn:Hpp;
    [| left; unfold portal_system_entity; by rewrite Hpp].
  destruct (portal s !! portal_id) as [prt |] eqn:Hprt;
    [| left; unfold portal_system_entity; by rewrite Hpp, Hprt].
  destruct (position s !! pair_entity prt) as [pair_pos |] eqn:Hpair;
    [| left; unfold portal_system_entity; by rewrite Hpp, Hprt, Hpair].
  rewrite (portal_system_entity_lookup s aug portal_id pp pair_pos prt)
    by done.
  case_decide as Hin; [| by left].
  apply elem_of_entering_entity_ids in Hin as (_ & Hcol & Hmoved).
  right. split; [done |]. split; [done |]. by exists (pair_entity prt), pair_pos.
Qed.

Lemma portal_system_over_unmoved (ids : list Z) (s : State)
    (aug : gmap Position (gset Z)) (e : Z) :
  collidable s !! e = None ∨ prev_position s !! e = position s !! e →
  position (portal_system_over ids s aug) !! e = position s !! e.
Proof.
  revert s. induction ids as [| i ids IH]; intros s Hrest; [done |].
  change (portal_system_over (i :: ids) s aug)
    with (portal_system_over ids (portal_system_entity s aug i) aug).
  assert (position (portal_system_entity s aug i) !! e = position s !! e)
    as Hstep.
  { destruct (portal_system_entity_cases s aug i e)
      as [? | ([v Hv] & Hmoved & _)]; [done |].
    destruct Hrest as [Hnc | Hsame]; [congruence | contradiction]. }
  pose proof (portal_system_entity_frame s aug i) as Hf.
  unfold same_except_position in Hf.
  destruct Hf as (_ & _ & _ & _ & _ & _ & _ & _ & Hcol & Hf).
  assert (prev_position (portal_system_entity s aug i) = prev_position s)
    as Hprev by tauto.
  rewrite IH; [done |]. by rewrite Hcol, Hprev, Hstep.
Qed.

Lemma portal_system_over_occupied (ids : list Z) (s : State)
    (aug : gmap Position (gset Z)) (e : Z) (p : Position) :
  position (portal_system_over ids s aug) !! e = Some p →
  ∃ q, position s !! q = Some p.
Proof.
  revert s. induction ids as [| i ids IH]; intros s Hp; [by exists e |].
  change (portal_system_over (i :: ids) s aug)
    with (portal_system_over ids (portal_system_entity s aug i) aug) in Hp.
  apply IH in Hp as [q Hq].
  destruct (portal_system_entity_cases s aug i q)
    as [Hsame | (_ & _ & q' & p' & Hq' & Hland)].
  - exists q. by rewrite <- Hsame.
  - exists q'. congruence.
Qed.

(** X6 — What [portal_system] never does: it never moves an entity that is not
    collidable, nor one whose previous position equals its current one,
    whatever the portals, their order and the trail. *)
Theorem portal_system_never_moves_resting (s : State) (e : Z) :
  collidable s !! e = None ∨ prev_position s !! e = position s !! e →
  position (portal_system s) !! e = position s !! e.
Proof. apply portal_system_over_unmoved. Qed.

Lemma portal_system_never_moves_resting_witness :
  position (portal_system portal_world) !! 1 = Some (mkPosition 0 0)
  ∧ position (portal_system portal_world) !! 2 = Some (mkPosition 4 4).
Proof.
  split.
  - rewrite portal_system_never_moves_resting; [reflexivity |].
    right. reflexivity.
  - rewrite portal_system_never_moves_resting; [reflexivity |].
    left. reflexivity.
Defined.

(** X7 — Teleporting opens no new cell: every cell occupied after
    [portal_system] was occupied by some entity before it. *)
Theorem portal_system_occupied_cells (s : State) (e : Z) (p : Position) :
  position (portal_system s) !! e = Some p →
  ∃ q, position s !! q = Some p.
Proof. apply portal_system_over_occupied. Qed.

Lemma portal_system_occupied_cells_witness :
  ∃ q, position portal_world !! q = Some (mkPosition 4 4).
Proof.
  apply (portal_system_occupied_cells portal_world 0).
  vm_compute; reflexivity.
Defined.

(** X8 — Fixed points: a state without portals, or one in which no collidable
    entity changed position this step, is returned as it is. *)
Theorem portal_system_fixed_point (s : State) :
  portal s = ∅
  ∨ (∀ e, is_Some (collidable s !! e) →
          prev_position s !! e = position s !! e) →
  portal_system s = s.
Proof.
  intros [Hempty | Hrest].
  - unfold portal_system. rewrite Hempty, map_to_list_empty. reflexivity.
  - apply state_eq_by_position.
    + unfold portal_system. apply portal_system_over_frame.
    + apply map_eq. intros e. unfold portal_system.
      apply portal_system_over_unmoved.
      destruct (collidable s !! e) as [c |] eqn:Hc; [| by left].
      right. apply Hrest. by rewrite Hc.
Qed.

Lemma portal_system_fixed_point_witness :
  portal_system box_world = box_world
  ∧ portal_system resting_world = resting_world.
Proof.
  split; apply portal_system_fixed_point.
  - left. reflexivity.
  - right. intros e [c Hc]. unfold resting_world, world in Hc. simpl in Hc.
    apply lookup_insert_Some in Hc as [[<- _] | [_ Hc]]; [reflexivity |].
    apply lookup_singleton_Some in Hc as [<- _]. reflexivity.
Defined.

(** X9 — Single hop: when the portal itself is not among the entities it
    teleports, running [portal_system_entity] again on its own result
    changes nothing. *)
Theorem portal_system_entity_single_hop (s : State)
    (aug : gmap Position (gset Z)) (portal_id : Z) :
  (∀ pp, position s !! portal_id = Some pp →
         portal_id ∉ entering_entity_ids s aug pp) →
  portal_system_entity (portal_system_entity s aug portal_id) aug portal_id
  = portal_system_entity s aug portal_id.
Proof.
  intros Hself.
  destruct (position s !! portal_id) as [pp |] eqn:Hpp;
    [| unfold portal_system_entity at 2; rewrite Hpp;
       unfold portal_system_entity; by rewrite Hpp].
  destruct (portal s !! portal_id) as [prt |] eqn:Hprt;
    [| unfold portal_system_entity at 2; rewrite Hpp, Hprt;
       unfold portal_system_entity; by rewrite Hpp, Hprt].
  destruct (position s !! pair_entity prt) as [pair_pos |] eqn:Hpair;
    [| unfold portal_system_entity at 2; rewrite Hpp, Hprt, Hpair;
       unfold portal_system_entity; by rewrite Hpp, Hprt, Hpair].
  pose proof (λ e, portal_system_entity_lookup s aug portal_id pp pair_pos
                     prt e Hpp Hprt Hpair) as Hlook.
  pose proof (portal_system_entity_frame s aug portal_id) as Hf.
  set (s' := portal_system_entity s aug portal_id) in *.
  assert (collidable s' = collidable s ∧ portal s' = portal s
          ∧ prev_position s' = prev_position s) as (Hcol & Hportal & Hprev)
    by (unfold same_except_position in Hf; tauto).
  assert (position s' !! portal_id = Some pp) as Hpp'.
  { rewrite Hlook, decide_False; [done | by apply Hself]. }
  assert (portal s' !! portal_id = Some prt) as Hprt' by by rewrite Hportal.
  assert (position s' !! pair_entity prt = Some pair_pos) as Hpair'.
  { rewrite Hlook. by case_decide. }
  apply state_eq_by_position; [apply portal_system_entity_frame |].
  apply map_eq. intros e.
  rewrite (portal_system_entity_lookup s' aug portal_id pp pair_pos prt)
    by done.
  case_decide as Hin; [| done].
  apply elem_of_entering_entity_ids in Hin as (Htrail & Hc & Hmoved).
  rewrite Hcol, Hprev in *. rewrite Hlook in Hmoved |- *.
  case_decide as Hin0; [done |]. exfalso. apply Hin0.
  by apply elem_of_entering_entity_ids.
Qed.

Lemma portal_system_entity_single_hop_witness :
  let aug := get_augmented_trail portal_world (dom (collidable portal_world)) in
  portal_system_entity (portal_system_entity portal_world aug 10) aug 10
  = portal_system_entity portal_world aug 10.
Proof.
  intros aug. apply portal_system_entity_single_hop.
  intros pp _ Hin. apply elem_of_entering_entity_ids in Hin as (_ & [c Hc] & _).
  vm_compute in Hc. discriminate Hc.
Defined.

(** ** Push followed by portal *)

(** X5 — A box pushed onto a portal's cell is carried on by the portal: after a
    successful push of the collidable box [b] onto [dest], where portal
    [portal_id] (not the pusher) stands, [portal_system_entity] on the
    pushed state moves [b] to wherever the pair then stands, provided the
    augmented trail lists [b] at [dest] and [b] did not start the step
    there. *)
Theorem push_then_portal (s : State) (aug : gmap Position (gset Z))
    (eid b portal_id : Z) (cur next_pos dest : Position) (prt : Portal) :
  position s !! eid = Some cur →
  position s !! b = Some next_pos →
  is_Some (pushable s !! b) →
  is_Some (collidable s !! b) →
  compute_destination s cur next_pos = Ret (Some dest) →
  ¬ blocker_at s dest true →
  position s !! portal_id = Some dest →
  portal s !! portal_id = Some prt →
  portal_id ≠ eid →
  prev_position s !! b ≠ Some dest →
  b ∈ default ∅ (aug !! dest) →
  ∃ s', push_system s eid next_pos = Ret s'
    ∧ position s' !! b = Some dest
    ∧ ∀ pair_pos, position s' !! pair_entity prt = Some pair_pos →
        position (portal_system_entity s' aug portal_id) !! b = Some pair_pos.
Proof.
  intros Hcur Hb Hpush Hcol Hdest Hfree Hportal Hprt Hne Hprev Htrail.
  rewrite (push_system_unfold s eid cur next_pos dest Hcur
             (pushables_nonempty s next_pos b Hb Hpush) Hdest).
  apply is_blocked_at_false in Hfree. rewrite Hfree.
  eexists. split; [reflexivity |].
  set (s' := replace_position s _).
  assert (∀ e, position s' !! e
               = if decide (e ∈ entities_with_components_at s next_pos
                                  (pushable s))
                 then Some dest
                 else <[eid := next_pos]> (position s) !! e) as Hlook
    by (intros e; apply push_loop_lookup).
  assert (position s' !! b = Some dest) as Hb'.
  { rewrite Hlook, decide_True; [done |].
    by apply elem_of_entities_with_components_at. }
  split; [done |]. intros pair_pos Hpair.
  assert (position s' !! portal_id = Some dest) as Hportal'.
  { rewrite Hlook. case_decide; [done |]. by rewrite lookup_insert_ne. }
  rewrite (portal_system_entity_lookup s' aug portal_id dest pair_pos prt)
    by done.
  rewrite decide_True; [done |].
  apply elem_of_entering_entity_ids. split; [done |]. split; [done |].
  by rewrite Hb'.
Qed.

Lemma push_then_portal_witness :
  let aug : gmap Position (gset Z) := {[ mkPosition 2 0 := {[ 1 ]} ]} in
  ∃ s', push_system push_portal_world 0 (mkPosition 1 0) = Ret s'
    ∧ position (portal_system_entity s' aug 10) !! 1 = Some (mkPosition 4 0).
Proof.
  intros aug.
  destruct (push_then_portal push_portal_world aug 0 1 10
              (mkPosition 0 0) (mkPosition 1 0) (mkPosition 2 0) (mkPortal 11))
    as (s' & Hrun & _ & Hcarried).
  - vm_compute; reflexivity.
  - vm_compute; reflexivity.
  - by exists MkPushable.
  - by exists MkCollidable.
  - reflexivity.
  - intros Hb. apply is_blocked_at_true in Hb. vm_compute in Hb.
    discriminate Hb.
  - vm_compute; reflexivity.
  - vm_compute; reflexivity.
  - discriminate.
  - vm_compute. discriminate.
  - vm_compute; reflexivity.
  - exists s'. split; [exact Hrun |]. apply Hcarried.
    vm_compute in Hrun. injection Hrun as <-. vm_compute; reflexivity.
Defined.

(** ** Level editor: pairing the portals of the working grid *)

Lemma elem_of_enumerate_from {A : Type} (i j : Z) (a : A) (l : list A) :
  (j, a) ∈ enumerate_from i l ↔ i ≤ j ∧ l !! Z.to_nat (j - i) = Some a.
Proof.
  revert i. induction l as [| a' l IH]; intros i; simpl.
  - rewrite elem_of_nil. split; [done | by intros [_ ?]].
  - rewrite elem_of_cons, IH. split.
    + intros [[= -> ->] | [Hle Hl]].
      * split; [lia |]. by rewrite Z.sub_diag.
      * split; [lia |].
        replace (Z.to_nat (j - i)) with (S (Z.to_nat (j - (i + 1)))) by lia.
        done.
    + intros [Hle Hl]. destruct (decide (j = i)) as [-> | Hne].
      * left. rewrite Z.sub_diag in Hl. simpl in Hl. congruence.
      * right. split; [lia |].
        replace (Z.to_nat (j - i)) with (S (Z.to_nat (j - (i + 1)))) in Hl
          by lia.
        done.
Qed.

Lemma elem_of_concat {A : Type} (x : A) (ls : list (list A)) :
  x ∈ concat ls ↔ ∃ l, x ∈ l ∧ l ∈ ls.
Proof.
  induction ls as [| l ls IH]; simpl.
  - rewrite elem_of_nil. split; [done |]. by intros (l & _ & ?%elem_of_nil).
  - rewrite elem_of_app, IH. split.
    + intros [Hx | (l' & Hx & Hl')].
      * exists l. split; [done | apply list_elem_of_here].
      * exists l'. split; [done | by apply list_elem_of_further].
    + intros (l' & Hx & [-> | Hl']%elem_of_cons); [by left |].
      right. by exists l'.
Qed.

Lemma elem_of_grid_portals (grid : list (list (list Token))) (c : Z * Z) :
  c ∈ grid_portals grid
  ↔ 0 ≤ c.1 ∧ 0 ≤ c.2
    ∧ ∃ row cell, grid !! Z.to_nat c.2 = Some row
                  ∧ row !! Z.to_nat c.1 = Some cell
                  ∧ has_portal cell = true.
Proof.
  unfold grid_portals, row_portals, enumerate.
  rewrite elem_of_concat. split.
  - intros (cells & Hc & Hcells).
    apply list_elem_of_fmap in Hcells as ([yy row] & -> & Hrow).
    apply elem_of_enumerate_from in Hrow as [Hy Hrow]. simpl in Hc.
    apply list_elem_of_omap in Hc as ([xx cell] & Hcell & Hsome).
    apply elem_of_enumerate_from in Hcell as [Hx Hcell]. simpl in Hsome.
    destruct (has_portal cell) eqn:Hportal; [| done].
    injection Hsome as <-. simpl. rewrite Z.sub_0_r in Hrow, Hcell.
    repeat split; try done. by exists row, cell.
  - intros (Hx & Hy & row & cell & Hrow & Hcell & Hportal).
    destruct c as [xx yy]. simpl in *.
    exists (omap (λ xc, if has_portal xc.2 then Some (xc.1, yy) else None)
                 (enumerate_from 0 row)).
    split.
    + apply list_elem_of_omap. exists (xx, cell). split.
      * apply elem_of_enumerate_from. by rewrite Z.sub_0_r.
      * simpl. by rewrite Hportal.
    + apply list_elem_of_fmap. exists (yy, row). split; [done |].
      apply elem_of_enumerate_from. by rewrite Z.sub_0_r.
Qed.



(** Three portal cells give one pair, in reading order; the third portal
    stays out. *)
Example pair_portals_three :
  editor_portal_pairs
    (_pair_portals
       [ [ [floor_token; mkToken "portal" None]; [floor_token] ];
         [ [floor_token; mkToken "portal" None];
           [floor_token; mkToken "portal" None] ] ]
       (mkSessionState None))
  = Some [ ((0, 0), (0, 1)) ].
Proof. reflexivity. Qed.

(** ** Level editor: when the level builder returns *)

Lemma elem_of_py_range (n i : Z) : i ∈ py_range n ↔ 0 ≤ i < n.
Proof.
  unfold py_range. rewrite list_elem_of_fmap. split.
  - intros (k & -> & Hk%elem_of_seq). lia.
  - intros Hi. exists (Z.to_nat i). split; [lia |]. apply elem_of_seq. lia.
Qed.

Lemma py_index_Ret {A : Type} (l : list A) (i : Z) (a : A) :
  0 ≤ i → py_index l i = Ret a → l !! Z.to_nat i = Some a.
Proof.
  intros Hi. unfold py_index.
  destruct (decide (i < 0)) as [? | _]; [lia |]. simpl.
  destruct (decide (i < 0)) as [? | _]; [lia |].
  destruct (l !! Z.to_nat i); [by intros [= ->] | done].
Qed.

Lemma py_index_Raise {A : Type} (l : list A) (i : Z) (e : PyError) :
  py_index l i = Raise e → e = IndexError.
Proof.
  unfold py_index. case_decide; [by intros [= <-] |].
  destruct (l !! _); [done | by intros [= <-]].
Qed.

Lemma exn_fold_invariant_in {A B : Type} (I : B → Prop) (f : B → A → exn B)
    (l : list A) :
  (∀ b a b', a ∈ l → I b → f b a = Ret b' → I b') →
  ∀ b b', I b → exn_fold f l b = Ret b' → I b'.
Proof.
  induction l as [| a l IH]; simpl; intros Hstep b b' Hb.
  - by intros [= <-].
  - destruct (f b a) as [b1 |] eqn:Hf; simpl; [| done].
    apply IH.
    + intros b2 a2 b3 Ha2. apply Hstep. by apply list_elem_of_further.
    + eapply Hstep; [apply list_elem_of_here | done | done].
Qed.

Lemma exn_fold_Ret_all {A B : Type} (f : B → A → exn B) (l : list A)
    (b b' : B) (a : A) :
  exn_fold f l b = Ret b' → a ∈ l → ∃ b1 b2, f b1 a = Ret b2.
Proof.
  revert b. induction l as [| a' l IH]; simpl; intros b Hfold Ha.
  - by apply elem_of_nil in Ha.
  - destruct (f b a') as [b1 |] eqn:Hf; simpl in Hfold; [| done].
    apply elem_of_cons in Ha as [-> | Ha]; [by exists b, b1 | by eapply IH].
Qed.

Lemma exn_fold_Raise {A B : Type} (f : B → A → exn B) (l : list A)
    (b : B) (e : PyError) :
  exn_fold f l b = Raise e → ∃ b1 a, a ∈ l ∧ f b1 a = Raise e.
Proof.
  revert b. induction l as [| a' l IH]; simpl; intros b Hfold; [done |].
  destruct (f b a') as [b1 |] eqn:Hf; simpl in Hfold.
  - destruct (IH _ Hfold) as (b2 & a & Ha & Hr).
    exists b2, a. split; [by apply list_elem_of_further | done].
  - injection Hfold as ->. exists b, a'. split; [apply list_elem_of_here | done].
Qed.

Section EditorFurther.

Variable factory_accepts : FactoryCall → bool.
Variable to_state : Level → exn State.

Lemma build_cell_Raise (cfg : EditorConfig) (y x : Z) (b : Build) (e : PyError) :
  build_cell factory_accepts cfg y b x = Raise e → e = IndexError.
Proof.
  unfold build_cell.
  destruct (py_index (grid_tokens cfg) y) as [row |] eqn:Hrow; simpl.
  - destruct (py_index row x) as [tokens |] eqn:Htok; simpl; [done |].
    intros [= <-]. by eapply py_index_Raise.
  - intros [= <-]. by eapply py_index_Raise.
Qed.

Lemma build_level_Ret_shape (st : SessionState) (cfg : EditorConfig)
    (lvl : Level) :
  _build_level_from_tokens factory_accepts st cfg = Ret lvl → well_shaped cfg.
Proof.
  unfold _build_level_from_tokens.
  destruct (exn_fold (build_row factory_accepts cfg)
              (py_range (cfg_height cfg)) (mkBuild [] [] []))
    as [b |] eqn:Hloop; simpl; [| done].
  intros _ y x Hy Hx.
  destruct (exn_fold_Ret_all _ _ _ _ y Hloop) as (b1 & b2 & Hrow);
    [by apply elem_of_py_range |].
  unfold build_row in Hrow.
  destruct (exn_fold_Ret_all _ _ _ _ x Hrow) as (b3 & b4 & Hcell);
    [by apply elem_of_py_range |].
  unfold build_cell in Hcell.
  destruct (py_index (grid_tokens cfg) y) as [row |] eqn:Hr;
    simpl in Hcell; [| done].
  destruct (py_index row x) as [tokens |] eqn:Ht; simpl in Hcell; [| done].
  exists row, tokens. split; apply py_index_Ret; (done || lia).
Qed.

Lemma build_level_Raise (st : SessionState) (cfg : EditorConfig) (e : PyError) :
  _build_level_from_tokens factory_accepts st cfg = Raise e → e = IndexError.
Proof.
  unfold _build_level_from_tokens.
  destruct (exn_fold (build_row factory_accepts cfg)
              (py_range (cfg_height cfg)) (mkBuild [] [] []))
    as [b | e'] eqn:Hloop; simpl; [done |].
  intros [= <-].
  apply exn_fold_Raise in Hloop as (b1 & y & _ & Hrow).
  unfold build_row in Hrow.
  apply exn_fold_Raise in Hrow as (b2 & x & _ & Hcell).
  by eapply build_cell_Raise.
Qed.

(** X11 — The level builder returns a level exactly on the snapshots that have a
    cell for every [(x, y)] of their dimensions; on the others it raises
    [IndexError] and nothing else, and so does [_make_env], before it ever
    looks for an agent. *)
Theorem build_level_iff_well_shaped (st : SessionState) (cfg : EditorConfig) :
  ((∃ lvl, _build_level_from_tokens factory_accepts st cfg = Ret lvl)
   ↔ well_shaped cfg)
  ∧ (∀ e, _build_level_from_tokens factory_accepts st cfg = Raise e →
          e = IndexError)
  ∧ (¬ well_shaped cfg →
     _make_env factory_accepts to_state st cfg = Raise IndexError).
Proof.
  split; [| split].
  - split.
    + intros [lvl Hlvl]. by eapply build_level_Ret_shape.
    + apply build_level_returns.
  - apply build_level_Raise.
  - intros Hbad. unfold _make_env, _initial_state_fn.
    destruct (_build_level_from_tokens factory_accepts st cfg)
      as [lvl | e] eqn:Hlvl.
    + exfalso. apply Hbad. by eapply build_level_Ret_shape.
    + simpl. by rewrite (build_level_Raise st cfg e Hlvl).
Qed.

(** ** Level editor: what the built level holds *)

Lemma build_token_placements (w h x y : Z) (b : Build) (token : Token) :
  0 ≤ x < w → 0 ≤ y < h →
  placements_ok w h (b_objects b) (b_placed b) →
  placements_ok w h (b_objects (build_token factory_accepts x y b token))
                (b_placed (build_token factory_accepts x y b token)).
Proof.
  intros Hx Hy [Hids Hcells]. unfold build_token.
  case_decide; [done |].
  destruct (dict_get (tok_type token) (PALETTE factory_accepts))
    as [tool |]; [| done].
  destruct (builder tool) as [bld |]; [| done].
  destruct (build_spec bld _ _) as [call |]; [| done].
  unfold placements_ok. cbn [b_objects b_placed]. split.
  - rewrite fmap_app, length_app, Hids. simpl.
    rewrite Nat.add_1_r, seq_S. done.
  - apply Forall_app. split; [done |]. by apply Forall_singleton.
Qed.

Lemma build_tokens_placements (w h x y : Z) (tokens : list Token) (b : Build) :
  0 ≤ x < w → 0 ≤ y < h →
  placements_ok w h (b_objects b) (b_placed b) →
  placements_ok w h
    (b_objects (fold_left (build_token factory_accepts x y) tokens b))
    (b_placed (fold_left (build_token factory_accepts x y) tokens b)).
Proof.
  intros Hx Hy. revert b.
  induction tokens as [| t tokens IH]; intros b Hb; [done |].
  simpl. by apply IH, build_token_placements.
Qed.

Lemma pair_loop_length (ps : list ((Z * Z) * nat))
    (pairs : list ((Z * Z) * (Z * Z))) (objs : list EntitySpec) :
  length (fold_left (pair_step ps) pairs objs) = length objs.
Proof.
  revert objs. induction pairs as [| pr pairs IH]; intros objs; [done |].
  simpl. by rewrite IH, pair_step_length.
Qed.

(** X12 — In a level that the builder returns, the placements list the objects
    [0, 1, 2, ...] in creation order — each object placed exactly once — and
    every placement is on a cell inside the config's grid. *)
Theorem build_level_placements (st : SessionState) (cfg : EditorConfig)
    (lvl : Level) :
  _build_level_from_tokens factory_accepts st cfg = Ret lvl →
  placements_ok (cfg_width cfg) (cfg_height cfg)
                (lvl_objects lvl) (lvl_placed lvl).
Proof.
  unfold _build_level_from_tokens.
  destruct (exn_fold (build_row factory_accepts cfg)
              (py_range (cfg_height cfg)) (mkBuild [] [] []))
    as [b |] eqn:Hloop; simpl; [| done].
  intros [= <-]. cbn [lvl_objects lvl_placed].
  assert (placements_ok (cfg_width cfg) (cfg_height cfg)
            (b_objects b) (b_placed b)) as [Hids Hcells].
  { eapply (exn_fold_invariant_in
              (λ b, placements_ok (cfg_width cfg) (cfg_height cfg)
                      (b_objects b) (b_placed b))); [| | exact Hloop].
    - intros b1 y b2 Hy%elem_of_py_range Hb1. unfold build_row. intros Hrow.
      eapply (exn_fold_invariant_in
                (λ b, placements_ok (cfg_width cfg) (cfg_height cfg)
                        (b_objects b) (b_placed b)));
        [| exact Hb1 | exact Hrow].
      intros b3 x b4 Hx%elem_of_py_range Hb3. unfold build_cell.
      destruct (py_index (grid_tokens cfg) y) as [row |]; simpl; [| done].
      destruct (py_index row x) as [tokens |]; simpl; [| done].
      intros [= <-]. by apply build_tokens_placements.
    - split; [done | apply Forall_nil_2]. }
  split; [| done]. by rewrite pair_loop_length.
Qed.

End EditorFurther.

Lemma build_level_placements_witness :
  ∃ lvl, _build_level_from_tokens (λ _, true) (mkSessionState None) portal_cfg
         = Ret lvl
    ∧ placements_ok 3 1 (lvl_objects lvl) (lvl_placed lvl).
Proof.
  eexists. split; [vm_compute; reflexivity |].
  apply (build_level_placements (λ _, true) (mkSessionState None) portal_cfg).
  vm_compute; reflexivity.
Defined.

(** A snapshot that announces two rows but holds one makes [_make_env]
    raise [IndexError], agent or not. *)
Example make_env_short_snapshot :
  _make_env (λ _, true) convert_level (mkSessionState None)
    {| cfg_width := 3; cfg_height := 2;
       cfg_move_fn := default_move_fn;
       cfg_objective_fn := default_objective_fn;
       cfg_seed := None; cfg_render_texture_map := [];
       grid_tokens := grid_tokens portal_cfg |}
  = Raise IndexError.
Proof. vm_compute; reflexivity. Qed.

(** ** Level editor: defaults and builders *)

Lemma getitem_merged (params defaults : gmap string PyVal) (k : string)
    (v : PyVal) :
  defaults !! k = Some v → ∃ v', py_getitem (params ∪ defaults) k = Ret v'.
Proof.
  intros Hd. unfold py_getitem.
  destruct ((params ∪ defaults) !! k) as [v' |] eqn:Hm; [by exists v' |].
  apply lookup_union_None in Hm as [_ Hm]. congruence.
Qed.

Section EditorBuilders.

Variable factory_accepts : FactoryCall → bool.

Lemma create_Raise (name : string) (args : list (string * PyVal))
    (e : PyError) :
  create factory_accepts name args = Raise e → e = FactoryError.
Proof. unfold create. destruct (factory_accepts _); [done | by intros [= <-]]. Qed.

(** X13 — Merging the defaults keeps the builders away from [KeyError]: for every
    palette tool, on the params of any token merged over the tool's
    defaults, the builder either returns or fails inside the factory. *)
Theorem merged_defaults_no_key_error (tool_key : string) (tool : ToolSpec)
    (bld : gmap string PyVal → exn FactoryCall) (params : gmap string PyVal)
    (e : PyError) :
  dict_get tool_key (PALETTE factory_accepts) = Some tool →
  builder tool = Some bld →
  bld (params ∪ _default_tool_params tool_key) = Raise e →
  e = FactoryError.
Proof.
  intros Htool Hbld. unfold PALETTE in Htool. cbn [dict_get] in Htool.
  repeat (case_decide as Hkey;
          [ injection Htool as <-; subst tool_key; cbn [builder] in Hbld;
            first [ discriminate Hbld | injection Hbld as <- ]
          | clear Hkey ]);
    try discriminate Htool;
    repeat match goal with
    | |- context [py_getitem (params ∪ ?d) ?k] =>
      let v := fresh "v" in
      let Hv := fresh "Hv" in
      let v' := fresh "v" in
      let Hget := fresh "Hget" in
      assert (∃ v, d !! k = Some v) as [v Hv]
        by (vm_compute; eexists; reflexivity);
      destruct (getitem_merged params d k v Hv) as [v' Hget];
      rewrite Hget; cbn [exn_bind]; clear Hv Hget
    end;
    apply create_Raise.
Qed.

End EditorBuilders.

Lemma merged_defaults_no_key_error_witness :
  agent_builder_refused (∅ ∪ _default_tool_params "agent")
  = Raise FactoryError
  ∧ FactoryError = FactoryError.
Proof.
  split; [vm_compute; reflexivity |].
  apply (merged_defaults_no_key_error (λ _, false) "agent"
           (mkToolSpec "Agent" (Some agent_builder_refused) "")
           agent_builder_refused ∅ FactoryError).
  - reflexivity.
  - reflexivity.
  - vm_compute; reflexivity.
Defined.

(** ** Level editor: who gets paired *)

Lemma ref_of_set_cases (o r i x : nat) (objs : list EntitySpec) :
  ref_of (set_portal_pair_ref o r objs) i = Some x →
  (i = o ∧ x = r) ∨ ref_of objs i = Some x.
Proof.
  destruct (decide (o = i)) as [-> | Hne].
  - intros Hset. left. split; [done |].
    unfold ref_of, set_portal_pair_ref in Hset.
    rewrite list_lookup_alter_eq in Hset.
    destruct (objs !! i); simpl in Hset; congruence.
  - rewrite ref_of_set_ne by done. by right.
Qed.

Lemma made_by_portal_set (o r i : nat) (objs : list EntitySpec) :
  made_by_portal (set_portal_pair_ref o r objs) i ↔ made_by_portal objs i.
Proof.
  unfold made_by_portal, set_portal_pair_ref.
  destruct (decide (o = i)) as [-> | Hne].
  - rewrite list_lookup_alter_eq. by destruct (objs !! i).
  - by rewrite list_lookup_alter_ne.
Qed.

Lemma dict_get_value {K V : Type} `{EqDecision K} (k : K) (v : V)
    (d : list (K * V)) :
  dict_get k d = Some v → v ∈ d.*2.
Proof.
  intros Hget%dict_get_elem_of. apply list_elem_of_fmap. by exists (k, v).
Qed.

Lemma pair_step_pairing_inv (ps : list ((Z * Z) * nat))
    (objs : list EntitySpec) (pr : (Z * Z) * (Z * Z)) :
  pairing_inv ps objs → pairing_inv ps (pair_step ps objs pr).
Proof.
  intros [Hmade Hrefs]. unfold pair_step.
  destruct (dict_get pr.1 ps) as [a |] eqn:Ha; [| done].
  destruct (dict_get pr.2 ps) as [b |] eqn:Hb; [| done].
  case_decide as Hne; [| done].
  apply dict_get_value in Ha, Hb.
  assert (pairing_inv ps (set_portal_pair_ref a b objs)) as Hinv1.
  { split.
    - intros o Ho. by apply made_by_portal_set, Hmade.
    - intros x y [[-> ->] | Hxy]%ref_of_set_cases; [done | by apply Hrefs]. }
  destruct (portal_pair_ref <$> set_portal_pair_ref a b objs !! b)
    as [[r |] |]; try done.
  - destruct Hinv1 as [Hmade1 Hrefs1]. split.
    + intros o Ho. by apply made_by_portal_set, Hmade1.
    + intros x y [[-> ->] | Hxy]%ref_of_set_cases; [| by apply Hrefs1].
      split; [by intros -> | done].
  - destruct Hinv1 as [Hmade1 Hrefs1]. split.
    + intros o Ho. by apply made_by_portal_set, Hmade1.
    + intros x y [[-> ->] | Hxy]%ref_of_set_cases; [| by apply Hrefs1].
      split; [by intros -> | done].
Qed.

Lemma pair_loop_pairing_inv (ps : list ((Z * Z) * nat))
    (pairs : list ((Z * Z) * (Z * Z))) (objs : list EntitySpec) :
  pairing_inv ps objs → pairing_inv ps (fold_left (pair_step ps) pairs objs).
Proof.
  revert objs. induction pairs as [| pr pairs IH]; intros objs Hinv; [done |].
  simpl. by apply IH, pair_step_pairing_inv.
Qed.

Section EditorPairing.

Variable factory_accepts : FactoryCall → bool.

Lemma build_spec_portal (merged defaults : gmap string PyVal)
    (call : FactoryCall) :
  build_spec (λ _, create factory_accepts "create_portal" []) merged defaults
  = Some call →
  call_factory call = "create_portal".
Proof.
  unfold build_spec, create.
  destruct (factory_accepts _); [| done]. by intros [= <-].
Qed.

Lemma made_by_portal_app (objs : list EntitySpec) (sp : EntitySpec) (o : nat) :
  made_by_portal objs o → made_by_portal (objs ++ [sp]) o.
Proof.
  unfold made_by_portal. intros Ho.
  destruct (objs !! o) as [sp' |] eqn:Hsp; [| done].
  by rewrite (lookup_app_l_Some _ _ _ _ Hsp).
Qed.

Lemma build_token_portal_specs (x y : Z) (b : Build) (token : Token) :
  portal_specs_inv b →
  portal_specs_inv (build_token factory_accepts x y b token).
Proof.
  intros [Hnone Hmade]. unfold build_token.
  case_decide as Herase; [done |].
  destruct (decide (tok_type token = "portal")) as [Hportal | Hother].
  - rewrite Hportal. cbn [dict_get PALETTE]. simpl.
    destruct (build_spec _ _ _) as [call |] eqn:Hcall; [| done].
    apply build_spec_portal in Hcall. split; cbn [b_objects b_portal_specs].
    + apply Forall_app. split; [done |]. by apply Forall_singleton.
    + intros o [-> | Ho]%dict_set_values.
      * unfold made_by_portal. rewrite lookup_app_r by done.
        rewrite Nat.sub_diag. simpl. by rewrite Hcall.
      * by apply made_by_portal_app, Hmade.
  - destruct (dict_get (tok_type token) (PALETTE factory_accepts))
      as [tool |]; [| done].
    destruct (builder tool) as [bld |]; [| done].
    destruct (build_spec bld _ _) as [call |]; [| done].
    split; cbn [b_objects b_portal_specs].
    + apply Forall_app. split; [done |]. by apply Forall_singleton.
    + intros o Ho. by apply made_by_portal_app, Hmade.
Qed.

Lemma build_tokens_portal_specs (x y : Z) (tokens : list Token) (b : Build) :
  portal_specs_inv b →
  portal_specs_inv (fold_left (build_token factory_accepts x y) tokens b).
Proof.
  revert b. induction tokens as [| t tokens IH]; intros b Hb; [done |].
  simpl. by apply IH, build_token_portal_specs.
Qed.

(** X14 — In a level that the builder returns — whatever pairs the session state
    holds — a [portal_pair_ref] only ever links two different specs, both
    made by [create_portal]: no portal is paired with itself, and nothing
    but a portal is paired. *)
Theorem build_level_pairs_portals (st : SessionState) (cfg : EditorConfig)
    (lvl : Level) (a b : nat) :
  _build_level_from_tokens factory_accepts st cfg = Ret lvl →
  ref_of (lvl_objects lvl) a = Some b →
  a ≠ b
  ∧ made_by_portal (lvl_objects lvl) a
  ∧ made_by_portal (lvl_objects lvl) b.
Proof.
  unfold _build_level_from_tokens.
  destruct (exn_fold (build_row factory_accepts cfg)
              (py_range (cfg_height cfg)) (mkBuild [] [] []))
    as [bd |] eqn:Hloop; simpl; [| done].
  intros [= <-]. cbn [lvl_objects].
  assert (portal_specs_inv bd) as [Hnone Hmade].
  { eapply (exn_fold_invariant portal_specs_inv); [| | exact Hloop].
    - intros b1 y b2 Hb1. unfold build_row.
      apply (exn_fold_invariant portal_specs_inv); [| done].
      intros b3 x b4 Hb3. unfold build_cell.
      destruct (py_index (grid_tokens cfg) y) as [row |]; simpl; [| done].
      destruct (py_index row x) as [tokens |]; simpl; [| done].
      intros [= <-]. by apply build_tokens_portal_specs.
    - split; [apply Forall_nil_2 | by intros o ?%elem_of_nil]. }
  intros Hab.
  destruct (pair_loop_pairing_inv (b_portal_specs bd)
              (match editor_portal_pairs st with
               | Some pairs => pairs
               | None => sequential_pairs (b_portal_specs bd).*1
               end) (b_objects bd)) as [Hmade' Hrefs'].
  { split; [done |]. intros x y Hxy. exfalso.
    unfold ref_of in Hxy.
    destruct (b_objects bd !! x) as [sp |] eqn:Hsp; [| done].
    simpl in Hxy. eapply Forall_lookup_1 in Hnone; [| exact Hsp]. congruence. }
  destruct (Hrefs' a b Hab) as (Hne & Ha & Hb). auto.
Qed.

End EditorPairing.

Lemma build_level_pairs_portals_witness :
  ∃ lvl, _build_level_from_tokens (λ _, true) (mkSessionState None) portal_cfg
         = Ret lvl
    ∧ made_by_portal (lvl_objects lvl) 1
    ∧ made_by_portal (lvl_objects lvl) 5.
Proof.
  eexists. split; [vm_compute; reflexivity |].
  edestruct (build_level_pairs_portals (λ _, true) (mkSessionState None)
               portal_cfg) as (_ & H1 & H5).
  - vm_compute; reflexivity.
  - instantiate (1 := 5%nat). instantiate (1 := 1%nat).
    vm_compute; reflexivity.
  - split; [exact H1 | exact H5].
Defined.

(** ** Level editor: the pairing loop links every pair *)

Lemma pair_step_other (ps : list ((Z * Z) * nat)) (objs : list EntitySpec)
    (pr : (Z * Z) * (Z * Z)) (o : nat) :
  dict_get pr.1 ps ≠ Some o → dict_get pr.2 ps ≠ Some o →
  ref_of (pair_step ps objs pr) o = ref_of objs o.
Proof.
  intros Ha Hb. unfold pair_step.
  destruct (dict_get pr.1 ps) as [a |]; [| done].
  destruct (dict_get pr.2 ps) as [b |]; [| done].
  case_decide; [| done].
  assert (a ≠ o) by congruence. assert (b ≠ o) by congruence.
  destruct (portal_pair_ref <$> set_portal_pair_ref a b objs !! b)
    as [[r |] |]; by rewrite ?ref_of_set_ne by done.
Qed.

Lemma pair_loop_other (ps : list ((Z * Z) * nat))
    (pairs : list ((Z * Z) * (Z * Z))) (objs : list EntitySpec) (o : nat) :
  (∀ c, c ∈ pair_cells pairs → dict_get c ps ≠ Some o) →
  ref_of (fold_left (pair_step ps) pairs objs) o = ref_of objs o.
Proof.
  revert objs. induction pairs as [| pr pairs IH]; intros objs Hout; [done |].
  simpl. unfold pair_cells in Hout. simpl in Hout.
  fold (pair_cells pairs) in Hout.
  rewrite IH.
  - apply pair_step_other; apply Hout.
    + apply list_elem_of_here.
    + apply list_elem_of_further, list_elem_of_here.
  - intros c Hc. apply Hout. by do 2 apply list_elem_of_further.
Qed.

(** X15 — The pairing loop on pairwise disjoint cells over specs not yet paired:
    every pair whose two cells hold a portal spec leaves these two specs
    referring to each other, and a spec on none of the paired cells keeps
    the reference it had. *)
Theorem pair_loop_links (ps : list ((Z * Z) * nat))
    (pairs : list ((Z * Z) * (Z * Z))) (objs : list EntitySpec) :
  NoDup ps.*2 →
  (∀ c o, dict_get c ps = Some o → (o < length objs)%nat) →
  NoDup (pair_cells pairs) →
  (∀ c o, c ∈ pair_cells pairs → dict_get c ps = Some o →
          ref_of objs o = None) →
  (∀ a_pos b_pos a b,
     (a_pos, b_pos) ∈ pairs →
     dict_get a_pos ps = Some a → dict_get b_pos ps = Some b →
     ref_of (fold_left (pair_step ps) pairs objs) a = Some b
     ∧ ref_of (fold_left (pair_step ps) pairs objs) b = Some a)
  ∧ (∀ o, (∀ c, c ∈ pair_cells pairs → dict_get c ps ≠ Some o) →
          ref_of (fold_left (pair_step ps) pairs objs) o = ref_of objs o).
Proof.
  intros Hinj Hbound Hnd Hfresh. split; [| intros o; apply pair_loop_other].
  revert objs Hbound Hfresh.
  induction pairs as [| [a0 b0] pairs IH];
    intros objs Hbound Hfresh a_pos b_pos a b Hin Ha Hb;
    [by apply elem_of_nil in Hin |].
  unfold pair_cells in Hnd, Hfresh. simpl in Hnd, Hfresh.
  fold (pair_cells pairs) in Hnd, Hfresh.
  apply NoDup_cons in Hnd as [Ha_fresh Hnd].
  apply NoDup_cons in Hnd as [Hb_fresh Hnd].
  apply not_elem_of_cons in Ha_fresh as [Hab0 Ha_fresh].
  assert (∀ c c' o, c ∈ pair_cells pairs → c' ∉ pair_cells pairs →
                    dict_get c ps = Some o → dict_get c' ps ≠ Some o)
    as Hapart.
  { intros c c' o Hc Hc' Hget Hget'. apply Hc'.
    by rewrite (dict_values_inj c' c o ps Hinj
                  (dict_get_elem_of _ _ _ Hget')
                  (dict_get_elem_of _ _ _ Hget)). }
  simpl. apply elem_of_cons in Hin as [[= -> ->] | Hin].
  - assert (a ≠ b) as Hne.
    { intros ->. apply Hab0.
      apply (dict_values_inj a0 b0 b ps Hinj);
        by apply dict_get_elem_of. }
    destruct (pair_step_fresh ps objs (a0, b0) a b) as (Hlink1 & Hlink2 & _);
      try done.
    { by eapply Hbound. }
    { by eapply Hbound. }
    { apply (Hfresh b0); [| done].
      apply list_elem_of_further, list_elem_of_here. }
    rewrite !pair_loop_other; [done | |].
    + intros c Hc Hget. apply Hb_fresh.
      by rewrite (dict_values_inj b0 c b ps Hinj
                    (dict_get_elem_of _ _ _ Hb)
                    (dict_get_elem_of _ _ _ Hget)).
    + intros c Hc Hget. apply Ha_fresh.
      by rewrite (dict_values_inj a0 c a ps Hinj
                    (dict_get_elem_of _ _ _ Ha)
                    (dict_get_elem_of _ _ _ Hget)).
  - refine (IH Hnd _ _ _ a_pos b_pos a b Hin Ha Hb).
    + intros c o Hget. rewrite pair_step_length. by eapply Hbound.
    + intros c o Hc Hget. rewrite pair_step_other.
      * apply (Hfresh c); [| done]. by do 2 apply list_elem_of_further.
      * simpl. by eapply Hapart.
      * simpl. by eapply Hapart.
Qed.

Lemma pair_loop_links_witness :
  let ps : list ((Z * Z) * nat) := [ ((0, 0), 0%nat); ((2, 0), 1%nat) ] in
  let objs := [ mkEntitySpec (mkCall "create_portal" []) None;
                mkEntitySpec (mkCall "create_portal" []) None ] in
  ref_of (fold_left (pair_step ps) [ ((0, 0), (2, 0)) ] objs) 0 = Some 1%nat
  ∧ ref_of (fold_left (pair_step ps) [ ((0, 0), (2, 0)) ] objs) 1 = Some 0%nat.
Proof.
  intros ps objs.
  destruct (pair_loop_links ps [ ((0, 0), (2, 0)) ] objs) as [Hlinks _].
  - apply (bool_decide_unpack _). vm_compute. exact I.
  - intros c o. subst ps objs. simpl.
    repeat case_decide; intros [= <-]; lia.
  - apply (bool_decide_unpack _). vm_compute. exact I.
  - intros c o _ _. subst ps objs. unfold ref_of.
    destruct o as [| [| o]]; reflexivity.
  - apply (Hlinks (0, 0) (2, 0)); [apply list_elem_of_here | done | done].
Defined.

(** ** Working grid: placing tools *)

Lemma grid_index_in_range {A : Type} (l : list A) (i : Z) (a : A) :
  0 ≤ i → l !! Z.to_nat i = Some a → grid_index l i = Edited (Z.to_nat i, a).
Proof.
  intros Hi Hl. unfold grid_index.
  destruct (decide (i < 0)) as [? | _]; [lia |]. simpl.
  destruct (decide (i < 0)) as [? | _]; [lia |]. by rewrite Hl.
Qed.

Lemma grid_index_Edited {A : Type} (l : list A) (i : Z) (j : nat) (a : A) :
  grid_index l i = Edited (j, a) → l !! j = Some a.
Proof.
  unfold grid_index. case_decide; [done |].
  destruct (l !! Z.to_nat _) as [a' |] eqn:Hl; [| done].
  intros [= <- <-]. done.
Qed.

Lemma grid_index_out_of_range {A : Type} (l : list A) (i : Z) :
  Z.of_nat (length l) ≤ i → grid_index l i = EditFailed GridIndexError.
Proof.
  intros Hi. unfold grid_index.
  destruct (decide (i < 0)) as [? | _]; [lia |]. simpl.
  destruct (decide (i < 0)) as [? | _]; [lia |].
  rewrite lookup_ge_None_2; [done | lia].
Qed.

Lemma cell_at_Some (grid : list (list (list Token))) (x y : Z)
    (cell : list Token) :
  cell_at grid x y = Some cell
  ↔ ∃ row, grid !! Z.to_nat y = Some row ∧ row !! Z.to_nat x = Some cell.
Proof.
  unfold cell_at. destruct (grid !! Z.to_nat y) as [row |]; simpl.
  - split; [intros Hc; by exists row | by intros (row' & [= <-] & Hc)].
  - split; [done | by intros (row' & ? & _)].
Qed.

Lemma cell_at_set_cell (grid : list (list (list Token))) (x y x' y' : Z)
    (old new : list Token) :
  0 ≤ x → 0 ≤ y → 0 ≤ x' → 0 ≤ y' →
  cell_at grid x y = Some old →
  cell_at (set_cell grid (Z.to_nat y) (Z.to_nat x) new) x' y'
  = if decide (x' = x ∧ y' = y) then Some new else cell_at grid x' y'.
Proof.
  intros Hx Hy Hx' Hy' (row & Hrow & Hcell)%cell_at_Some.
  unfold cell_at, set_cell.
  destruct (decide (y' = y)) as [-> | Hney].
  - rewrite list_lookup_alter_eq, Hrow. simpl.
    destruct (decide (x' = x)) as [-> | Hnex].
    + rewrite decide_True by done.
      apply list_lookup_insert_eq. by eapply lookup_lt_Some.
    + rewrite decide_False by tauto.
      apply list_lookup_insert_ne. lia.
  - rewrite decide_False by tauto.
    rewrite list_lookup_alter_ne by lia. done.
Qed.

Lemma first_floor_is_floor (cell : list Token) (k : nat) (f : Token) :
  first_floor cell = Some (k, f) → cell !! k = Some f ∧ tok_type f = "floor".
Proof.
  unfold first_floor. intros (Hk & Hf & _)%list_find_Some. done.
Qed.

Lemma first_floor_tidy (cell : list Token) :
  tidy_cell cell →
  ∃ f rest, cell = f :: rest ∧ first_floor cell = Some (0%nat, f)
            ∧ tok_type f = "floor" ∧ is_Some (tok_params f)
            ∧ (length rest ≤ 1)%nat
            ∧ Forall (λ t, tok_type t ≠ "floor") rest.
Proof.
  intros (f & rest & -> & Hf & Hp & Hlen & Hrest).
  exists f, rest. repeat split; try done.
  unfold first_floor. simpl. by rewrite decide_True.
Qed.

(** X16 — Placing a tool other than the floor and the eraser on an existing cell
    always succeeds: the cell becomes the floor token it had (a default one
    if it had none) followed by one token for the tool, whatever it held
    before, and every other cell is as it was. *)
Theorem place_tool_places (tool_key : string) (x y : Z)
    (grid : list (list (list Token))) (params : option (gmap string PyVal))
    (cell : list Token) :
  tool_key ≠ "erase" → tool_key ≠ "floor" →
  0 ≤ x → 0 ≤ y →
  cell_at grid x y = Some cell →
  ∃ grid',
    _place_tool tool_key x y grid params = Edited grid'
    ∧ cell_at grid' x y
      = Some [kept_floor cell; mkToken tool_key (Some (default ∅ params))]
    ∧ ∀ x' y', 0 ≤ x' → 0 ≤ y' → ¬ (x' = x ∧ y' = y) →
               cell_at grid' x' y' = cell_at grid x' y'.
Proof.
  intros Hne Hnf Hx Hy Hcell.
  pose proof Hcell as (row & Hrow & Hc)%cell_at_Some.
  unfold _place_tool.
  rewrite (grid_index_in_range grid y row Hy Hrow).
  rewrite (grid_index_in_range row x cell Hx Hc).
  rewrite !decide_False by done.
  eexists. split; [reflexivity |]. split.
  - rewrite (cell_at_set_cell grid x y x y cell) by done.
    by rewrite decide_True.
  - intros x' y' Hx' Hy' Hother.
    rewrite (cell_at_set_cell grid x y x' y' cell) by done.
    by rewrite decide_False.
Qed.

Lemma place_tool_places_witness :
  ∃ grid',
    _place_tool "portal" 1 0 (fresh_grid 2 1) None = Edited grid'
    ∧ cell_at grid' 1 0 = Some [default_floor; mkToken "portal" (Some ∅)].
Proof.
  destruct (place_tool_places "portal" 1 0 (fresh_grid 2 1) None
              [default_floor]) as (grid' & Hrun & Hcell & _);
    [done | done | lia | lia | reflexivity |].
  exists grid'. split; [exact Hrun | exact Hcell].
Defined.

(** X17 — The eraser keeps the first floor token of the cell and nothing else; on
    a cell without a floor token it raises [StopIteration] and leaves the
    grid alone. *)
Theorem place_tool_erase (x y : Z) (grid : list (list (list Token)))
    (params : option (gmap string PyVal)) (cell : list Token) :
  0 ≤ x → 0 ≤ y →
  cell_at grid x y = Some cell →
  match first_floor cell with
  | Some (_, floor_entry) =>
    ∃ grid', _place_tool "erase" x y grid params = Edited grid'
             ∧ cell_at grid' x y = Some [floor_entry]
  | None => _place_tool "erase" x y grid params = EditFailed StopIteration
  end.
Proof.
  intros Hx Hy Hcell.
  pose proof Hcell as (row & Hrow & Hc)%cell_at_Some.
  unfold _place_tool.
  rewrite (grid_index_in_range grid y row Hy Hrow).
  rewrite (grid_index_in_range row x cell Hx Hc).
  rewrite decide_True by done.
  destruct (first_floor cell) as [[k f] |]; [| done].
  eexists. split; [reflexivity |].
  rewrite (cell_at_set_cell grid x y x y cell) by done.
  by rewrite decide_True.
Qed.

Lemma place_tool_erase_witness :
  _place_tool "erase" 0 0 [ [ [mkToken "wall" None] ] ] None
  = EditFailed StopIteration.
Proof.
  apply (place_tool_erase 0 0 [ [ [mkToken "wall" None] ] ] None
           [mkToken "wall" None]); [lia | lia | reflexivity].
Defined.


Lemma set_cell_set_cell (grid : list (list (list Token))) (j i : nat)
    (c1 c2 : list Token) :
  set_cell (set_cell grid j i c1) j i c2 = set_cell grid j i c2.
Proof.
  unfold set_cell. rewrite list_alter_alter_eq.
  apply list_alter_ext; [| done]. intros row _. simpl.
  apply list_insert_insert_eq.
Qed.

(** X18 — Placing a tool and then erasing the cell gives what erasing it at once
    gives, as soon as the cell held a floor token: the eraser undoes the
    placement and keeps the same floor. *)
Theorem place_then_erase (tool_key : string) (x y : Z)
    (grid grid1 : list (list (list Token)))
    (params params' : option (gmap string PyVal)) (cell : list Token) :
  tool_key ≠ "erase" → tool_key ≠ "floor" →
  0 ≤ x → 0 ≤ y →
  cell_at grid x y = Some cell →
  is_Some (first_floor cell) →
  _place_tool tool_key x y grid params = Edited grid1 →
  _place_tool "erase" x y grid1 params' = _place_tool "erase" x y grid params'.
Proof.
  intros Hne Hnf Hx Hy Hcell [[k f] Hf] Hplace.
  pose proof Hcell as (row & Hrow & Hc)%cell_at_Some.
  pose proof (first_floor_is_floor cell k f Hf) as [_ Htype].
  unfold _place_tool in Hplace.
  rewrite (grid_index_in_range grid y row Hy Hrow) in Hplace.
  rewrite (grid_index_in_range row x cell Hx Hc) in Hplace.
  rewrite !decide_False in Hplace by done. rewrite Hf in Hplace.
  injection Hplace as <-.
  set (placed := [f; mkToken tool_key (Some (default ∅ params))]).
  assert (cell_at (set_cell grid (Z.to_nat y) (Z.to_nat x) placed) x y
          = Some placed) as Hcell1.
  { rewrite (cell_at_set_cell grid x y x y cell) by done.
    by rewrite decide_True. }
  pose proof Hcell1 as (row1 & Hrow1 & Hc1)%cell_at_Some.
  unfold _place_tool.
  rewrite (grid_index_in_range _ y row1 Hy Hrow1).
  rewrite (grid_index_in_range row1 x placed Hx Hc1).
  rewrite (grid_index_in_range grid y row Hy Hrow).
  rewrite (grid_index_in_range row x cell Hx Hc).
  rewrite !decide_True by done. rewrite Hf.
  assert (first_floor placed = Some (0%nat, f)) as ->.
  { unfold first_floor, placed. simpl. by rewrite decide_True. }
  by rewrite set_cell_set_cell.
Qed.

Lemma place_then_erase_witness :
  ∃ grid1,
    _place_tool "wall" 1 0 (fresh_grid 2 1) None = Edited grid1
    ∧ _place_tool "erase" 1 0 grid1 None = Edited (fresh_grid 2 1).
Proof.
  eexists. split; [reflexivity |].
  rewrite (place_then_erase "wall" 1 0 (fresh_grid 2 1) _ None None
             [default_floor]); [reflexivity | done | done | lia | lia | | |].
  - reflexivity.
  - by eexists.
  - reflexivity.
Defined.

(** ** Working grid: what every edit keeps *)

Lemma set_cell_shape (w h : nat) (grid : list (list (list Token))) (j i : nat)
    (cell : list Token) :
  grid_shape w h grid → grid_shape w h (set_cell grid j i cell).
Proof.
  intros [Hlen Hrows]. unfold set_cell. split.
  - by rewrite length_alter.
  - apply Forall_alter; [done |]. intros row _ Hrow. by rewrite length_insert.
Qed.

Lemma set_cell_tidy (grid : list (list (list Token))) (j i : nat)
    (cell : list Token) :
  tidy_grid grid → tidy_cell cell → tidy_grid (set_cell grid j i cell).
Proof.
  intros Hgrid Hcell. unfold set_cell, tidy_grid.
  apply Forall_alter; [done |]. intros row _ Hrow. by apply Forall_insert.
Qed.

Lemma tidy_grid_cell (grid : list (list (list Token))) (j i : nat)
    (row : list (list Token)) (cell : list Token) :
  tidy_grid grid → grid !! j = Some row → row !! i = Some cell →
  tidy_cell cell.
Proof.
  intros Hgrid Hrow Hcell.
  eapply Forall_lookup_1 in Hgrid; [| exact Hrow].
  by eapply Forall_lookup_1 in Hgrid.
Qed.

Lemma tidy_cell_intro (f : Token) (rest : list Token) :
  tok_type f = "floor" → is_Some (tok_params f) →
  (length rest ≤ 1)%nat → Forall (λ t, tok_type t ≠ "floor") rest →
  tidy_cell (f :: rest).
Proof. intros ? ? ? ?. by exists f, rest. Qed.

Lemma place_tool_invariants (tool_key : string) (x y : Z) (w h : nat)
    (grid grid' : list (list (list Token)))
    (params : option (gmap string PyVal)) :
  _place_tool tool_key x y grid params = Edited grid' →
  (grid_shape w h grid → grid_shape w h grid')
  ∧ (tidy_grid grid → tidy_grid grid').
Proof.
  unfold _place_tool.
  destruct (grid_index grid y) as [[j row] |] eqn:Hrow; [| done].
  destruct (grid_index row x) as [[i cell] |] eqn:Hcell; [| done].
  apply grid_index_Edited in Hrow, Hcell.
  assert (tidy_grid grid → tidy_cell cell) as Hold
    by (intros Hg; by eapply tidy_grid_cell).
  case_decide as Herase; [| case_decide as Hfloor].
  - destruct (first_floor cell) as [[k f] |] eqn:Hf; [| done].
    intros [= <-]. split; [apply set_cell_shape |].
    intros Hg. apply set_cell_tidy; [done |].
    destruct (first_floor_tidy cell (Hold Hg))
      as (f0 & rest & _ & Hf0 & Htype & Hparams & _).
    rewrite Hf in Hf0. injection Hf0 as _ ->.
    apply tidy_cell_intro; [done | done | simpl; lia | apply Forall_nil_2].
  - destruct (first_floor cell) as [[k f] |] eqn:Hf.
    + destruct (params ≫= _) as [cost |]; [| by intros [= <-]].
      destruct (tok_params f) as [fp |] eqn:Hfp; [| done].
      intros [= <-]. split; [apply set_cell_shape |].
      intros Hg. apply set_cell_tidy; [done |].
      destruct (first_floor_tidy cell (Hold Hg))
        as (f0 & rest & -> & Hf0 & Htype & Hparams & Hlen & Hrest).
      rewrite Hf in Hf0. injection Hf0 as -> ->. simpl.
      apply tidy_cell_intro; [done | by eexists | done | done].
    + intros [= <-]. split; [apply set_cell_shape |].
      intros Hg. apply set_cell_tidy; [done |].
      apply tidy_cell_intro;
        [done | by eexists | simpl; lia | apply Forall_nil_2].
  - intros [= <-]. split; [apply set_cell_shape |].
    intros Hg. apply set_cell_tidy; [done |].
    destruct (first_floor cell) as [[k f] |] eqn:Hf.
    + destruct (first_floor_tidy cell (Hold Hg))
        as (f0 & rest & _ & Hf0 & Htype & Hparams & _).
      rewrite Hf in Hf0. injection Hf0 as _ ->.
      apply tidy_cell_intro; [done | done | simpl; lia |].
      by apply Forall_singleton.
    + apply tidy_cell_intro; [done | by eexists | simpl; lia |].
      by apply Forall_singleton.
Qed.

(** X19 — Every successful edit keeps the size of the grid, and keeps it
    tidy: each cell still starts with a floor token that has params,
    followed by at most one token, which is no floor. *)
Theorem place_tool_keeps_tidy (tool_key : string) (x y : Z) (w h : nat)
    (grid grid' : list (list (list Token)))
    (params : option (gmap string PyVal)) :
  _place_tool tool_key x y grid params = Edited grid' →
  (grid_shape w h grid → grid_shape w h grid')
  ∧ (tidy_grid grid → tidy_grid grid').
Proof. apply place_tool_invariants. Qed.

Lemma place_tool_keeps_tidy_witness :
  ∃ grid',
    _place_tool "floor" 0 0 (fresh_grid 2 1) (Some {[ "cost" := PyInt 3 ]})
    = Edited grid'
    ∧ grid_shape 2 1 grid'.
Proof.
  eexists. split; [vm_compute; reflexivity |].
  eapply (place_tool_keeps_tidy "floor" 0 0 2 1 (fresh_grid 2 1) _
            (Some {[ "cost" := PyInt 3 ]})); [vm_compute; reflexivity |].
  split; [reflexivity |]. repeat constructor.
Defined.

Lemma place_tool_frame (tool_key : string) (x y x' y' : Z)
    (grid grid' : list (list (list Token)))
    (params : option (gmap string PyVal)) :
  0 ≤ x → 0 ≤ y → 0 ≤ x' → 0 ≤ y' → ¬ (x' = x ∧ y' = y) →
  _place_tool tool_key x y grid params = Edited grid' →
  cell_at grid' x' y' = cell_at grid x' y'.
Proof.
  intros Hx Hy Hx' Hy' Hother. unfold _place_tool.
  destruct (grid_index grid y) as [[j row] |] eqn:Hrow; [| done].
  destruct (grid_index row x) as [[i cell] |] eqn:Hcell; [| done].
  pose proof (grid_index_Edited _ _ _ _ Hrow) as Hr.
  pose proof (grid_index_Edited _ _ _ _ Hcell) as Hc.
  assert (j = Z.to_nat y ∧ i = Z.to_nat x) as [-> ->].
  { unfold grid_index in Hrow, Hcell.
    destruct (decide (y < 0)); [lia |]. destruct (decide (x < 0)); [lia |].
    simpl in Hrow, Hcell.
    destruct (decide (y < 0)); [lia |]. destruct (decide (x < 0)); [lia |].
    destruct (grid !! Z.to_nat y); [| done].
    destruct (row !! Z.to_nat x); [| done].
    injection Hrow as <- _. injection Hcell as <- _. done. }
  assert (cell_at grid x y = Some cell) as Hat
    by (apply cell_at_Some; by exists row).
  assert (∀ new, cell_at (set_cell grid (Z.to_nat y) (Z.to_nat x) new) x' y'
                 = cell_at grid x' y') as Hset.
  { intros new. rewrite (cell_at_set_cell grid x y x' y' cell) by done.
    by rewrite decide_False. }
  case_decide; [| case_decide].
  - destruct (first_floor cell) as [[k f] |]; [| done].
    by intros [= <-].
  - destruct (first_floor cell) as [[k f] |]; [| by intros [= <-]].
    destruct (params ≫= _); [| by intros [= <-]].
    destruct (tok_params f); [| done]. by intros [= <-].
  - by intros [= <-].
Qed.

Lemma elem_of_grid_portals_cell (grid : list (list (list Token))) (c : Z * Z) :
  c ∈ grid_portals grid
  ↔ 0 ≤ c.1 ∧ 0 ≤ c.2
    ∧ ∃ cell, cell_at grid c.1 c.2 = Some cell ∧ has_portal cell = true.
Proof.
  rewrite elem_of_grid_portals. split.
  - intros (Hx & Hy & row & cell & Hrow & Hcell & Hp).
    repeat split; try done. exists cell. split; [| done].
    apply cell_at_Some. by exists row.
  - intros (Hx & Hy & cell & (row & Hrow & Hcell)%cell_at_Some & Hp).
    repeat split; try done. by exists row, cell.
Qed.

(** X20 — What an edit does to the portal cells that [_pair_portals] reads: after
    the eraser or any tool but the floor is placed on a cell, that cell
    holds a portal exactly when the tool is the portal; every other cell
    holds a portal exactly when it did before. *)
Theorem place_tool_portal_cells (tool_key : string) (x y : Z)
    (grid grid' : list (list (list Token)))
    (params : option (gmap string PyVal)) :
  tool_key ≠ "floor" → 0 ≤ x → 0 ≤ y →
  _place_tool tool_key x y grid params = Edited grid' →
  ((x, y) ∈ grid_portals grid' ↔ tool_key = "portal")
  ∧ ∀ c, c ≠ (x, y) → c ∈ grid_portals grid' ↔ c ∈ grid_portals grid.
Proof.
  intros Hnf Hx Hy Hplace. split.
  - revert Hplace. unfold _place_tool.
    destruct (grid_index grid y) as [[j row] |] eqn:Hrow; [| done].
    destruct (grid_index row x) as [[i cell] |] eqn:Hcell; [| done].
    assert (j = Z.to_nat y ∧ i = Z.to_nat x
            ∧ cell_at grid x y = Some cell) as (-> & -> & Hat).
    { unfold grid_index in Hrow, Hcell.
      destruct (decide (y < 0)); [lia |]. destruct (decide (x < 0)); [lia |].
      simpl in Hrow, Hcell.
      destruct (decide (y < 0)); [lia |]. destruct (decide (x < 0)); [lia |].
      destruct (grid !! Z.to_nat y) as [row' |] eqn:Hr; [| done].
      injection Hrow as <- ->.
      destruct (row !! Z.to_nat x) as [cell' |] eqn:Hc; [| done].
      injection Hcell as <- ->.
      repeat split. apply cell_at_Some. by exists row. }
    assert (∀ new, (x, y) ∈ grid_portals
                     (set_cell grid (Z.to_nat y) (Z.to_nat x) new)
                   ↔ has_portal new = true) as Hnew.
    { intros new. rewrite elem_of_grid_portals_cell. simpl.
      rewrite (cell_at_set_cell grid x y x y cell) by done.
      rewrite decide_True by done. split.
      - by intros (_ & _ & cell' & [= <-] & Hp).
      - intros Hp. repeat split; try done. by exists new. }
    case_decide as Herase; [| rewrite decide_False by done].
    + destruct (first_floor cell) as [[k f] |] eqn:Hf; [| done].
      intros [= <-]. rewrite Hnew.
      apply first_floor_is_floor in Hf as [_ Hf].
      unfold has_portal. simpl. rewrite Hf, Herase. simpl. split; done.
    + intros [= <-]. rewrite Hnew.
      assert (tok_type (match first_floor cell with
                        | Some (_, floor_entry) => floor_entry
                        | None => default_floor
                        end) = "floor") as Hfloor.
      { destruct (first_floor cell) as [[k f] |] eqn:Hf; [| done].
        by apply first_floor_is_floor in Hf as [_ Hf]. }
      unfold has_portal. simpl. rewrite Hfloor. simpl.
      rewrite orb_false_r. apply bool_decide_eq_true.
  - intros [x' y'] Hother. rewrite !elem_of_grid_portals_cell. simpl.
    split; intros (Hx' & Hy' & Hcell); repeat split; try done.
    + rewrite <- (place_tool_frame tool_key x y x' y' grid grid' params);
        try done. intros [-> ->]. done.
    + rewrite (place_tool_frame tool_key x y x' y' grid grid' params);
        try done. intros [-> ->]. done.
Qed.

Lemma place_tool_portal_cells_witness :
  let grid' := [ [ [default_floor];
                   [default_floor; mkToken "portal" (Some ∅)] ] ] in
  _place_tool "portal" 1 0 (fresh_grid 2 1) None = Edited grid'
  ∧ (1, 0) ∈ grid_portals grid'.
Proof.
  intros grid'. split; [reflexivity |].
  destruct (place_tool_portal_cells "portal" 1 0 (fresh_grid 2 1) grid' None)
    as [Hcell _]; [done | lia | lia | reflexivity |].
  by apply Hcell.
Defined.

(** ** Working grid: a whole editing session *)

Lemma py_range_length (n : Z) : length (py_range n) = Z.to_nat n.
Proof. unfold py_range. by rewrite length_fmap, length_seq. Qed.

Lemma fresh_grid_shape (width height : Z) :
  grid_shape (Z.to_nat width) (Z.to_nat height) (fresh_grid width height).
Proof.
  unfold fresh_grid. split.
  - by rewrite length_fmap, py_range_length.
  - apply Forall_fmap, Forall_forall. intros y _. simpl.
    by rewrite length_fmap, py_range_length.
Qed.

Lemma fresh_grid_tidy (width height : Z) : tidy_grid (fresh_grid width height).
Proof.
  unfold fresh_grid, tidy_grid.
  apply Forall_fmap, Forall_forall. intros y _. simpl.
  apply Forall_fmap, Forall_forall. intros x _. simpl.
  apply tidy_cell_intro; [done | by eexists | simpl; lia | apply Forall_nil_2].
Qed.

Lemma grid_shape_cell (w h : nat) (grid : list (list (list Token))) (x y : Z) :
  grid_shape w h grid → 0 ≤ x < Z.of_nat w → 0 ≤ y < Z.of_nat h →
  ∃ row cell, grid !! Z.to_nat y = Some row ∧ row !! Z.to_nat x = Some cell.
Proof.
  intros [Hlen Hrows] Hx Hy.
  destruct (lookup_lt_is_Some_2 grid (Z.to_nat y)) as [row Hrow]; [lia |].
  pose proof (Forall_lookup_1 _ _ _ _ Hrows Hrow) as Hw. simpl in Hw.
  destruct (lookup_lt_is_Some_2 row (Z.to_nat x)) as [cell Hcell]; [lia |].
  by exists row, cell.
Qed.

Lemma place_tool_in_range (tool_key : string) (x y : Z) (w h : nat)
    (grid : list (list (list Token))) (params : option (gmap string PyVal)) :
  tidy_grid grid → grid_shape w h grid →
  0 ≤ x < Z.of_nat w → 0 ≤ y < Z.of_nat h →
  ∃ grid', _place_tool tool_key x y grid params = Edited grid'.
Proof.
  intros Htidy Hshape Hx Hy.
  destruct (grid_shape_cell w h grid x y Hshape Hx Hy)
    as (row & cell & Hrow & Hcell).
  destruct (first_floor_tidy cell (tidy_grid_cell _ _ _ _ _ Htidy Hrow Hcell))
    as (f & rest & _ & Hf & _ & [fp Hfp] & _).
  unfold _place_tool.
  rewrite (grid_index_in_range grid y row) by (done || lia).
  rewrite (grid_index_in_range row x cell) by (done || lia).
  rewrite Hf, Hfp.
  case_decide; [by eexists |]. case_decide; [| by eexists].
  destruct (params ≫= _); by eexists.
Qed.

Lemma place_all_failed
    (clicks : list (string * (Z * Z) * option (gmap string PyVal)))
    (e : GridError) :
  foldl (λ acc click,
           match acc with
           | Edited g => _place_tool click.1.1 click.1.2.1 click.1.2.2 g click.2
           | EditFailed e => EditFailed e
           end)
        (EditFailed e) clicks = EditFailed e.
Proof. induction clicks as [| c clicks IH]; [done | exact IH]. Qed.

Lemma place_all_cons
    (click : string * (Z * Z) * option (gmap string PyVal))
    (clicks : list (string * (Z * Z) * option (gmap string PyVal)))
    (grid : list (list (list Token))) :
  place_all (click :: clicks) grid
  = match _place_tool click.1.1 click.1.2.1 click.1.2.2 grid click.2 with
    | Edited g => place_all clicks g
    | EditFailed e => EditFailed e
    end.
Proof.
  unfold place_all. simpl.
  destruct (_place_tool _ _ _ grid _); [done | apply place_all_failed].
Qed.

Lemma place_all_in_range (w h : nat)
    (clicks : list (string * (Z * Z) * option (gmap string PyVal)))
    (grid : list (list (list Token))) :
  tidy_grid grid → grid_shape w h grid →
  Forall (λ click, 0 ≤ click.1.2.1 < Z.of_nat w
                   ∧ 0 ≤ click.1.2.2 < Z.of_nat h) clicks →
  ∃ grid', place_all clicks grid = Edited grid'
           ∧ tidy_grid grid' ∧ grid_shape w h grid'.
Proof.
  intros Htidy Hshape Hclicks. revert grid Htidy Hshape.
  induction Hclicks as [| click clicks [Hx Hy] _ IH]; intros grid Htidy Hshape.
  - by exists grid.
  - rewrite place_all_cons.
    destruct (place_tool_in_range click.1.1 click.1.2.1 click.1.2.2 w h grid
                click.2 Htidy Hshape Hx Hy) as [g Hg].
    rewrite Hg.
    destruct (place_tool_invariants _ _ _ w h _ _ _ Hg) as [Hs Ht].
    apply IH; auto.
Qed.

(** X21 — A session of clicks inside a fresh [width]×[height] grid never fails,
    whatever the tools and their params; the grid it ends with is tidy and
    of the same size, and the level builder returns a level on any config
    that snapshots it with these dimensions. *)
Theorem editing_session_builds (factory_accepts : FactoryCall → bool)
    (st : SessionState) (width height : Z)
    (clicks : list (string * (Z * Z) * option (gmap string PyVal))) :
  Forall (λ click, 0 ≤ click.1.2.1 < width ∧ 0 ≤ click.1.2.2 < height)
         clicks →
  ∃ grid,
    place_all clicks (_ensure_working_grid width height None).1 = Edited grid
    ∧ tidy_grid grid
    ∧ grid_shape (Z.to_nat width) (Z.to_nat height) grid
    ∧ ∀ cfg, grid_tokens cfg = grid → cfg_width cfg = width →
             cfg_height cfg = height →
             ∃ lvl, _build_level_from_tokens factory_accepts st cfg = Ret lvl.
Proof.
  intros Hclicks. simpl.
  destruct (place_all_in_range (Z.to_nat width) (Z.to_nat height) clicks
              (fresh_grid width height)) as (grid & Hrun & Htidy & Hshape).
  - apply fresh_grid_tidy.
  - apply fresh_grid_shape.
  - eapply Forall_impl; [exact Hclicks |]. simpl. lia.
  - exists grid. split; [done |]. split; [done |]. split; [done |].
    intros cfg Hgrid Hw Hh. apply build_level_returns.
    unfold well_shaped. rewrite Hgrid, Hw, Hh. intros y x Hy Hx.
    apply (grid_shape_cell (Z.to_nat width) (Z.to_nat height)); [done | |];
      lia.
Qed.

Lemma editing_session_builds_witness :
  ∃ grid,
    place_all [ ("portal", (0, 0), None); ("agent", (1, 0), None);
                ("portal", (2, 0), None); ("erase", (1, 0), None) ]
      (_ensure_working_grid 3 1 None).1 = Edited grid
    ∧ tidy_grid grid.
Proof.
  destruct (editing_session_builds (λ _, true) (mkSessionState None) 3 1
              [ ("portal", (0, 0), None); ("agent", (1, 0), None);
                ("portal", (2, 0), None); ("erase", (1, 0), None) ])
    as (grid & Hrun & Htidy & _).
  - repeat constructor; simpl; lia.
  - by exists grid.
Defined.
